(** * LD2451: frame decoder and command transaction of the radar driver

    A shallow embedding of the Go package [LD2451].  The repository holds
    two revisions of the driver:

    - [src/LD2451.go]: every 6-byte target record carries its own alarm
      byte, and the frame footer is dropped with [port.Flush()];
    - [src/unnamed/part_000]: the alarm byte is at frame level and is
      skipped, the footer is read as 4 bytes, and [sendCommand] is added.

    The serial port ([github.com/tarm/serial]) is an external collaborator:
    it is an interface here, with one executable instance, a port fed by
    bursts of bytes.  The goroutine [read] is a state-passing program over
    the port that also yields the trace of what it did: its calls on the
    port and its sends on the channels [targets] and [errors]. *)

From Stdlib Require Import ZArith Lia String.
From Stdlib Require Import Strings.Byte.
From stdpp Require Import base tactics option list relations.

Local Open Scope Z_scope.

(** ** Go values *)

(** [int(b)] for a [byte]. *)
Definition int (b : byte) : Z := Z.of_N (Byte.to_N b).

(** [a != b] on bytes. *)
Definition neqb (a b : byte) : bool := negb (Byte.eqb a b).

(** [bytes.Equal] *)
Fixpoint bytes_Equal (a b : list byte) : bool :=
  match a, b with
  | [], [] => true
  | x :: a', y :: b' => Byte.eqb x y && bytes_Equal a' b'
  | _, _ => false
  end.

(** [make([]byte, n)]: n zero bytes. *)
Definition make (n : nat) : list byte := replicate n x00.

(** Go's [error] values met in this package: what the port reports, and
    the one message built with [fmt.Errorf]. *)
Inductive error : Type :=
| EOF
| PortError (msg : string)
| Errorf (msg : string).

(** Run-time panics of slice indexing [s[i]] and reslicing [s[lo:hi]]. *)
Inductive panic : Type :=
| IndexOutOfRange (i len : nat)
| SliceBoundsOutOfRange (lo hi : nat).

(** ** The serial port *)

(** [Read p n] is [port.Read(buf)] with [len(buf) = n]: the bytes stored
    at the start of [buf] (their number is the first result of the Go
    call), the error, and the port afterwards.  [Write] returns the count
    and the error. *)
Class Port (P : Type) := {
  Read : P -> nat -> list byte * option error * P;
  Write : P -> list byte -> nat * option error * P;
  Flush : P -> option error * P
}.

(** One call on the port, with what it returned. *)
Inductive call : Type :=
| CRead (requested : nat) (got : list byte) (err : option error)
| CWrite (data : list byte) (err : option error)
| CFlush (err : option error).

(** A send on [ld2451.targets] or on [ld2451.errors]. *)
Inductive event (T : Type) : Type :=
| SendTarget (t : T)
| SendError (e : error).
Arguments SendTarget {T} t.
Arguments SendError {T} e.

(** What a method does that can be seen from outside, in order. *)
Inductive action (T : Type) : Type :=
| Call (c : call)
| Send (ev : event T).
Arguments Call {T} c.
Arguments Send {T} ev.

Definition sends {T} (tr : list (action T)) : list (event T) :=
  omap (fun a => match a with Send ev => Some ev | Call _ => None end) tr.

(** How a statement ends. *)
Inductive ctl (A : Type) : Type :=
| Next (a : A)
| Continue
| Return
| Panic (msg : panic).
Arguments Next {A} a.
Arguments Continue {A}.
Arguments Return {A}.
Arguments Panic {A} msg.

(** A statement over a port [P] in a goroutine that sends targets [T]:
    how it ends, the port afterwards, and what it did. *)
Definition M (P T A : Type) : Type := P -> ctl A * P * list (action T).

(** How a goroutine's function ends; [Running] when the iterations given
    to the model ran out while it was still looping. *)
Inductive ending : Type :=
| Returned
| Panicked (msg : panic)
| Running.

Section Runtime.
Context {P T : Type} `{Port P}.

Definition ret {A} (a : A) : M P T A := fun p => (Next a, p, []).

Definition bind {A B} (m : M P T A) (f : A -> M P T B) : M P T B := fun p =>
  match m p with
  | (Next a, p', tr) => let '(r, p'', tr') := f a p' in (r, p'', tr ++ tr')
  | (Continue, p', tr) => (Continue, p', tr)
  | (Return, p', tr) => (Return, p', tr)
  | (Panic msg, p', tr) => (Panic msg, p', tr)
  end.

Definition continue_ {A} : M P T A := fun p => (Continue, p, []).
Definition return_ {A} : M P T A := fun p => (Return, p, []).
Definition panic_ {A} (msg : panic) : M P T A := fun p => (Panic msg, p, []).

(** [buf[i]] *)
Definition index (buf : list byte) (i : nat) : M P T byte :=
  match buf !! i with
  | Some b => ret b
  | None => panic_ (IndexOutOfRange i (length buf))
  end.

(** [buf[lo:]] *)
Definition slice_from (buf : list byte) (lo : nat) : M P T (list byte) :=
  if (lo <=? length buf)%nat then ret (drop lo buf)
  else panic_ (SliceBoundsOutOfRange lo (length buf)).

(** [buf[:hi]]; the slices cut this way in the package have [cap = len]. *)
Definition slice_to (buf : list byte) (hi : nat) : M P T (list byte) :=
  if (hi <=? length buf)%nat then ret (take hi buf)
  else panic_ (SliceBoundsOutOfRange hi (length buf)).

(** The buffer after [Read] stored [got] at its start. *)
Definition store (got buf : list byte) : list byte :=
  take (length buf) got ++ drop (length got) buf.

(** [_, err := ld2451.port.Read(buf)]: the count is dropped. *)
Definition port_Read (buf : list byte) : M P T (list byte * option error) := fun p =>
  let '(got, err, p') := Read p (length buf) in
  (Next (store got buf, err), p', [Call (CRead (length buf) got err)]).

(** [ld2451.port.Write(data)]: both results are dropped. *)
Definition port_Write (data : list byte) : M P T unit := fun p =>
  let '(_, err, p') := Write p data in
  (Next tt, p', [Call (CWrite data err)]).

(** [ld2451.port.Flush()]: the result is dropped. *)
Definition port_Flush : M P T unit := fun p =>
  let '(err, p') := Flush p in
  (Next tt, p', [Call (CFlush err)]).

(** [ld2451.targets <- target] *)
Definition targets_send (t : T) : M P T unit := fun p =>
  (Next tt, p, [Send (SendTarget t)]).

(** [ld2451.errors <- err] *)
Definition errors_send (e : error) : M P T unit := fun p =>
  (Next tt, p, [Send (SendError e)]).

(** [for { body }], for at most [fuel] iterations. *)
Fixpoint forever (body : M P T unit) (fuel : nat) (p : P) : ending * P * list (action T) :=
  match fuel with
  | O => (Running, p, [])
  | S fuel' =>
      match body p with
      | (Next _, p', tr) | (Continue, p', tr) =>
          let '(r, p'', tr') := forever body fuel' p' in (r, p'', tr ++ tr')
      | (Return, p', tr) => (Returned, p', tr)
      | (Panic msg, p', tr) => (Panicked msg, p', tr)
      end
  end.
End Runtime.

Declare Scope go_scope.
Delimit Scope go_scope with go.
Notation "x <- m ;; k" := (bind m (fun x => k))
  (at level 20, m at level 99, k at level 200, only parsing) : go_scope.
Notation "' pat <- m ;; k" := (bind m (fun x => match x with pat => k end))
  (at level 20, pat pattern, m at level 99, k at level 200, only parsing) : go_scope.
Notation "m ;; k" := (bind m (fun _ => k))
  (at level 100, k at level 200, only parsing, right associativity) : go_scope.

(** ** A port fed by bursts *)

(** [rx] holds the bytes of the sensor in the bursts they arrive in: the
    head burst is what the driver holds now, a [Read] of [n] bytes takes
    up to [n] bytes of it, and waits for the next burst when it is empty;
    when nothing arrives any more the read times out with [EOF].  [Flush]
    drops what the driver holds.  [tx] collects what was written; a port
    with [tx_fault] set fails every write. *)
Record chunked : Type := Chunked {
  rx : list (list byte);
  tx : list (list byte);
  tx_fault : option error
}.

Fixpoint rx_read (n : nat) (bursts : list (list byte))
  : list byte * option error * list (list byte) :=
  match bursts with
  | [] => ([], Some EOF, [])
  | [] :: more => rx_read n more
  | c :: more => (take n c, None, drop n c :: more)
  end.

#[global] Instance chunked_port : Port chunked := {
  Read p n :=
    let '(got, err, bursts) := rx_read n (rx p) in
    (got, err, Chunked bursts (tx p) (tx_fault p));
  Write p data :=
    match tx_fault p with
    | Some e => (O, Some e, p)
    | None => (length data, None, Chunked (rx p) (tx p ++ [data]) None)
    end;
  Flush p := (None, Chunked (tail (rx p)) (tx p) (tx_fault p))
}.

(** A port that holds the whole stream [bs] already. *)
Definition stream (bs : list byte) : chunked := Chunked [bs] [] None.

(** ** The package, as both revisions have it *)

Record Config : Type := mkConfig {
  SerialPort : string;
  BaudRate : Z;
  TargetBufferSize : nat
}.

(** [type Direction int] *)
Definition Direction : Type := Z.
Definition DirectionAway : Direction := 0.
Definition DirectionToward : Direction := 1.

(** [func (d Direction) String() string] *)
Definition Direction_String (d : Direction) : string :=
  if d =? DirectionAway then "Away"%string
  else if d =? DirectionToward then "Toward"%string
  else "Unknown"%string.

Definition frameheader : list byte := [xf4; xf3; xf2; xf1].

(** [int(buf[1])<<8 | int(buf[0])] *)
Definition frameLength_of (b1 b0 : byte) : Z := Z.lor (Z.shiftl (int b1) 8) (int b0).

(** ** [src/LD2451.go] *)
Module PerTarget.

Record Target : Type := mkTarget {
  Alarm : bool;
  Angle : Z;
  Distance : Z;
  Direction : Direction;
  Speed : Z;
  SNR : Z
}.

(** [Target{}] *)
Definition zero : Target := mkTarget false 0 0 0 0 0.

(** [target.Alarm = v] and the like. *)
Definition set_Alarm (v : bool) (t : Target) : Target :=
  mkTarget v (Angle t) (Distance t) (Direction t) (Speed t) (SNR t).
Definition set_Angle (v : Z) (t : Target) : Target :=
  mkTarget (Alarm t) v (Distance t) (Direction t) (Speed t) (SNR t).
Definition set_Distance (v : Z) (t : Target) : Target :=
  mkTarget (Alarm t) (Angle t) v (Direction t) (Speed t) (SNR t).
Definition set_Direction v (t : Target) : Target :=
  mkTarget (Alarm t) (Angle t) (Distance t) v (Speed t) (SNR t).
Definition set_Speed (v : Z) (t : Target) : Target :=
  mkTarget (Alarm t) (Angle t) (Distance t) (Direction t) v (SNR t).
Definition set_SNR (v : Z) (t : Target) : Target :=
  mkTarget (Alarm t) (Angle t) (Distance t) (Direction t) (Speed t) v.

(** The target a complete record holds. *)
Definition record_target (b0 b1 b2 b3 b4 b5 : byte) : Target :=
  mkTarget (int b0 =? 1) (int b1 - 0x80) (int b2) (int b3) (int b4) (int b5).

(** The targets of the complete 6-byte records at the start of [buf]. *)
Fixpoint records (n : nat) (buf : list byte) : list Target :=
  match n, buf with
  | S n', b0 :: b1 :: b2 :: b3 :: b4 :: b5 :: rest =>
      record_target b0 b1 b2 b3 b4 b5 :: records n' rest
  | _, _ => []
  end.

Section Read.
Context {P : Type} `{Port P}.
Local Open Scope go_scope.

(** One turn of [for i := 0; i < numTargets; i++], lines 137-149. *)
Definition target_step (buf : list byte) : M P Target (list byte) :=
  let target := zero in
  b <- index buf 0 ;; let target := set_Alarm (int b =? 1) target in
  b <- index buf 1 ;; let target := set_Angle (int b - 0x80) target in
  b <- index buf 2 ;; let target := set_Distance (int b) target in
  b <- index buf 3 ;; let target := set_Direction (int b) target in
  b <- index buf 4 ;; let target := set_Speed (int b) target in
  b <- index buf 5 ;; let target := set_SNR (int b) target in
  targets_send target ;;
  slice_from buf 6.

(** The loop over the targets, lines 136-150, with [n] turns left. *)
Fixpoint targets_loop (n : nat) (buf : list byte) : M P Target unit :=
  match n with
  | O => ret tt
  | S n' => buf <- target_step buf ;; targets_loop n' buf
  end.

(** The body of [for { ... }] in [read], lines 85-153. *)
Definition read_body : M P Target unit :=
  '(buf, err) <- port_Read (make 1) ;;
  if err is Some e then errors_send e ;; return_ else
  b <- index buf 0 ;;
  if neqb b xf4 then continue_ else
  '(buf, err) <- port_Read (make 3) ;;
  if err is Some e then errors_send e ;; return_ else
  rest <- slice_from frameheader 1 ;;
  if bytes_Equal buf rest then
    '(buf, err) <- port_Read (make 2) ;;
    if err is Some e then errors_send e ;; return_ else
    b1 <- index buf 1 ;;
    b0 <- index buf 0 ;;
    let frameLength := frameLength_of b1 b0 in
    if frameLength =? 0 then
      '(buf, err) <- port_Read (make 4) ;;
      if err is Some e then errors_send e ;; return_ else
      continue_
    else
      '(buf, err) <- port_Read (make (Z.to_nat frameLength)) ;;
      if err is Some e then errors_send e ;; return_ else
      b <- index buf 0 ;;
      let numTargets := int b in
      buf <- slice_from buf 1 ;;
      targets_loop (Z.to_nat numTargets) buf ;;
      port_Flush
  else ret tt.

(** [func (ld2451 *LD2451) read()] *)
Definition read : nat -> P -> ending * P * list (action Target) :=
  forever read_body.
End Read.
End PerTarget.

(** ** [src/unnamed/part_000] *)
Module FrameLevel.

Record Target : Type := mkTarget {
  Angle : Z;
  Distance : Z;
  Direction : Direction;
  Speed : Z;
  SNR : Z
}.

(** [Target{}] *)
Definition zero : Target := mkTarget 0 0 0 0 0.

(** [target.Angle = v] and the like. *)
Definition set_Angle (v : Z) (t : Target) : Target :=
  mkTarget v (Distance t) (Direction t) (Speed t) (SNR t).
Definition set_Distance (v : Z) (t : Target) : Target :=
  mkTarget (Angle t) v (Direction t) (Speed t) (SNR t).
Definition set_Direction v (t : Target) : Target :=
  mkTarget (Angle t) (Distance t) v (Speed t) (SNR t).
Definition set_Speed (v : Z) (t : Target) : Target :=
  mkTarget (Angle t) (Distance t) (Direction t) v (SNR t).
Definition set_SNR (v : Z) (t : Target) : Target :=
  mkTarget (Angle t) (Distance t) (Direction t) (Speed t) v.

(** The target a complete record holds; its first byte has no part. *)
Definition record_target (b1 b2 b3 b4 b5 : byte) : Target :=
  mkTarget (int b1 - 0x80) (int b2) (int b3) (int b4) (int b5).

(** The targets of the complete 6-byte records at the start of [buf]. *)
Fixpoint records (n : nat) (buf : list byte) : list Target :=
  match n, buf with
  | S n', _ :: b1 :: b2 :: b3 :: b4 :: b5 :: rest =>
      record_target b1 b2 b3 b4 b5 :: records n' rest
  | _, _ => []
  end.

Definition failed_to_send : error :=
  Errorf "failed to send command to the LD2451".

Section Read.
Context {P : Type} `{Port P}.
Local Open Scope go_scope.

(** One turn of [for i := 0; i < numTargets; i++], lines 140-151. *)
Definition target_step (buf : list byte) : M P Target (list byte) :=
  let target := zero in
  b <- index buf 1 ;; let target := set_Angle (int b - 0x80) target in
  b <- index buf 2 ;; let target := set_Distance (int b) target in
  b <- index buf 3 ;; let target := set_Direction (int b) target in
  b <- index buf 4 ;; let target := set_Speed (int b) target in
  b <- index buf 5 ;; let target := set_SNR (int b) target in
  targets_send target ;;
  slice_from buf 6.

(** The loop over the targets, lines 139-152, with [n] turns left. *)
Fixpoint targets_loop (n : nat) (buf : list byte) : M P Target unit :=
  match n with
  | O => ret tt
  | S n' => buf <- target_step buf ;; targets_loop n' buf
  end.

(** Lines 133-152: the payload, from the target count to the last target. *)
Definition decode_payload (buf : list byte) : M P Target unit :=
  b <- index buf 0 ;;
  let numTargets := int b in
  buf <- slice_from buf 2 ;;
  targets_loop (Z.to_nat numTargets) buf.

(** The body of [for { ... }] in [read], lines 87-160. *)
Definition read_body : M P Target unit :=
  '(buf, err) <- port_Read (make 1) ;;
  if err is Some e then errors_send e ;; return_ else
  b <- index buf 0 ;;
  h <- index frameheader 0 ;;
  if neqb b h then continue_ else
  '(buf, err) <- port_Read (make 3) ;;
  if err is Some e then errors_send e ;; return_ else
  rest <- slice_from frameheader 1 ;;
  if bytes_Equal buf rest then
    '(buf, err) <- port_Read (make 2) ;;
    if err is Some e then errors_send e ;; return_ else
    b1 <- index buf 1 ;;
    b0 <- index buf 0 ;;
    let frameLength := frameLength_of b1 b0 in
    if frameLength =? 0 then
      '(buf, err) <- port_Read (make 4) ;;
      if err is Some e then errors_send e ;; return_ else
      continue_
    else
      '(buf, err) <- port_Read (make (Z.to_nat frameLength)) ;;
      if err is Some e then errors_send e ;; return_ else
      decode_payload buf ;;
      '(buf, err) <- port_Read (make 4) ;;
      if err is Some e then errors_send e ;; return_ else
      ret tt
  else ret tt.

(** [func (ld2451 *LD2451) read()] *)
Definition read : nat -> P -> ending * P * list (action Target) :=
  forever read_body.

(** [func (ld2451 *LD2451) sendCommand(command []byte)], lines 173-232. *)
Definition sendCommand (command : list byte) : M P Target unit :=
  port_Write [xfd; xfc; xfb; xfa; x04; x00; xff; x00; x01; x00; x04; x03; x02; x01] ;;
  '(buf, err) <- port_Read (make 1) ;;
  if err is Some e then errors_send e ;; return_ else
  b <- index buf 0 ;;
  if neqb b xfd then errors_send failed_to_send ;; return_ else
  '(buf, err) <- port_Read (make 17) ;;
  if err is Some e then errors_send e ;; return_ else
  status <- slice_from buf 7 ;;
  status <- slice_to status (length status - 8) ;;
  endFrame <- slice_from buf (length buf - 4) ;;
  if negb (bytes_Equal endFrame [x04; x03; x02; x01]) || negb (bytes_Equal status [x00; x00])
  then errors_send failed_to_send ;; return_ else
  port_Write [xfd; xfc; xfb; xfa; x02; x00; xfe; x00; x04; x03; x02; x01] ;;
  '(buf, err) <- port_Read (make 1) ;;
  if err is Some e then errors_send e ;; return_ else
  b <- index buf 0 ;;
  if neqb b xfd then errors_send failed_to_send ;; return_ else
  '(buf, err) <- port_Read (make 13) ;;
  if err is Some e then errors_send e ;; return_ else
  status <- slice_from buf 7 ;;
  status <- slice_to status (length status - 4) ;;
  endFrame <- slice_from buf (length buf - 4) ;;
  if negb (bytes_Equal endFrame [x04; x03; x02; x01]) || negb (bytes_Equal status [x00; x00])
  then errors_send failed_to_send ;; return_ else
  ret tt.
End Read.
End FrameLevel.

(** The two request frames [sendCommand] writes. *)
Definition enter_config : list byte :=
  [xfd; xfc; xfb; xfa; x04; x00; xff; x00; x01; x00; x04; x03; x02; x01].
Definition exit_config : list byte :=
  [xfd; xfc; xfb; xfa; x02; x00; xfe; x00; x04; x03; x02; x01].

(** Acknowledgements the sensor answers the two requests with: the marker
    0xFD, then 17 and 13 bytes with status 00 00 and the terminator. *)
Definition enter_ack : list byte :=
  [xfd; xfc; xfb; xfa; x08; x00; xff; x01; x00; x00; x01; x00; x40; x00; x04; x03; x02; x01].
Definition exit_ack : list byte :=
  [xfd; xfc; xfb; xfa; x04; x00; xfe; x01; x00; x00; x04; x03; x02; x01].

(** The error of a port that cannot write. *)
Definition write_failed : error := PortError "write failed".

(** The stream of the scenario of the specification. *)
Definition scenario : list byte :=
  [xf4; xf3; xf2; xf1; x07; x00; x01; x00; x90; x0a; x01; x14; x1e; xf8; xf7; xf6; xf5].

(** ** The channels, [Open] and [ReadTarget] of [src/LD2451.go] *)

(** The value behind [*LD2451] once [go ld2451.read()] is started.
    [targets] is the buffer of the channel of that name, oldest first, of
    capacity [config.TargetBufferSize]; [errors] has no buffer, so it has
    no state.  The goroutine [read] is what it has still to send, in
    order, and how it ends after that: it does not listen to anyone, so
    the consumer only decides when its sends happen. *)
Record LD2451 (T : Type) : Type := mkLD2451 {
  config : Config;
  targets : list T;
  reader : list (event T);
  reader_end : ending
}.
Arguments mkLD2451 {T} config targets reader reader_end.
Arguments config {T} l.
Arguments targets {T} l.
Arguments reader {T} l.
Arguments reader_end {T} l.

(** [Open], lines 67-76, from the port [serial.OpenPort] returned; the
    goroutine is given [fuel] iterations of its loop. *)
Definition Open {P} `{Port P} (config : Config) (fuel : nat) (port : P)
  : LD2451 PerTarget.Target :=
  let '(r, _, tr) := PerTarget.read fuel port in
  mkLD2451 config [] (sends tr) r.

(** The goroutine sends a target without a receiver while the buffer has
    room. *)
Inductive reader_step {T : Type} : LD2451 T -> LD2451 T -> Prop :=
| reader_buffers c q t todo r :
    (length q < TargetBufferSize c)%nat ->
    reader_step (mkLD2451 c q (SendTarget t :: todo) r)
                (mkLD2451 c (q ++ [t]) todo r).

(** [ReadTarget zero l res l']: a call of [ReadTarget] on [l] can return
    [res], leaving [l'].  The [select] takes a buffered target, or a
    target or an error the goroutine is ready to hand over; when both
    cases are ready either may be taken; the call waits while the
    goroutine moves on. *)
Inductive ReadTarget {T : Type} (zero : T)
  : LD2451 T -> T * option error -> LD2451 T -> Prop :=
| ReadTarget_buffered c t q todo r :
    ReadTarget zero (mkLD2451 c (t :: q) todo r) (t, None) (mkLD2451 c q todo r)
| ReadTarget_handed c t todo r :
    ReadTarget zero (mkLD2451 c [] (SendTarget t :: todo) r) (t, None)
               (mkLD2451 c [] todo r)
| ReadTarget_error c q e todo r :
    ReadTarget zero (mkLD2451 c q (SendError e :: todo) r) (zero, Some e)
               (mkLD2451 c q todo r)
| ReadTarget_wait l l' res l'' :
    reader_step l l' -> ReadTarget zero l' res l'' -> ReadTarget zero l res l''.

(** [l'] is [l] after some calls of [ReadTarget]. *)
Definition later {T : Type} (zero : T) : LD2451 T -> LD2451 T -> Prop :=
  rtc (fun l l' => exists res, ReadTarget zero l res l').

(** The goroutine has returned and no call of [ReadTarget] can return:
    the call blocks and nothing will wake it. *)
Definition blocks_forever {T : Type} (zero : T) (l : LD2451 T) : Prop :=
  reader_end l = Returned /\ forall res l', ~ ReadTarget zero l res l'.

(** An error the goroutine has still to send is the last thing it sends,
    and it returns after it. *)
Definition error_ends_reader {T : Type} (l : LD2451 T) : Prop :=
  forall pre e post,
    reader l = pre ++ SendError e :: post -> post = [] /\ reader_end l = Returned.

(** A consumer's configuration, for the examples. *)
Definition some_config : Config := mkConfig "/dev/ttyUSB0" 115200 4.

(** A frame that announces 2 targets and holds the record of one, with
    the frame of the scenario behind it. *)
Definition short_then_good : list byte :=
  [xf4; xf3; xf2; xf1; x07; x00; x02; x00; x90; x0a; x01; x14; x1e; xf8; xf7; xf6; xf5] ++
  scenario.

(** ** Traces *)

(** The reads that returned exactly the blocks [blocks], each in full and
    without error. *)
Definition full_reads {T : Type} (blocks : list (list byte)) : list (action T) :=
  (fun bs => Call (CRead (length bs) bs None)) <$> blocks.

(** The sends of the targets [ts]. *)
Definition target_sends {T : Type} (ts : list T) : list (action T) :=
  (fun t => Send (SendTarget t)) <$> ts.

(** What was written to the port, in order. *)
Definition writes {T : Type} (tr : list (action T)) : list (list byte) :=
  omap (fun a => match a with Call (CWrite data _) => Some data | _ => None end) tr.

(** [a] is neither a read that reported an error nor an error sent. *)
Definition quiet {T : Type} (a : action T) : Prop :=
  match a with
  | Call (CRead _ _ (Some _)) | Send (SendError _) => False
  | _ => True
  end.

(** A trace that ends with a read that reported an error and the send of
    that error, the first of either kind. *)
Definition failed {T : Type} (tr : list (action T)) : Prop :=
  exists pre n got e,
    tr = pre ++ [Call (CRead n got (Some e)); Send (SendError e)] /\ Forall quiet pre.

(** What the statements of [read] keep to: they return from the function
    at a failed read and nowhere else. *)
Definition fails_on_read_error_only {P T A : Type} (m : M P T A) : Prop :=
  forall p, let '(r, _, tr) := m p in
            match r with Return => failed tr | _ => Forall quiet tr end.

(** ** Frames, ranges and deliveries *)

(** A frame on the wire: the two bytes of the length field, the payload
    and what follows it. *)
Record frame : Type := Frame {
  f_len0 : byte;
  f_len1 : byte;
  f_payload : list byte;
  f_footer : list byte
}.

Definition frame_bytes (f : frame) : list byte :=
  xf4 :: xf3 :: xf2 :: xf1 :: f_len0 f :: f_len1 f :: f_payload f ++ f_footer f.

(** The target count a payload announces in its first byte. *)
Definition f_count (f : frame) : nat :=
  match f_payload f with
  | nt :: _ => Z.to_nat (int nt)
  | [] => O
  end.

(** Frames [src/LD2451.go] decodes in full: the length field is the
    length of the payload, and the records of all announced targets are
    behind the count. *)
Definition per_target_frame_ok (f : frame) : Prop :=
  frameLength_of (f_len1 f) (f_len0 f) = Z.of_nat (length (f_payload f)) /\
  (1 <= length (f_payload f))%nat /\
  (6 * f_count f <= length (drop 1 (f_payload f)))%nat.

(** Frames [src/unnamed/part_000] decodes in full: the records are behind
    the count and the alarm byte, and a footer of 4 bytes follows. *)
Definition frame_level_frame_ok (f : frame) : Prop :=
  frameLength_of (f_len1 f) (f_len0 f) = Z.of_nat (length (f_payload f)) /\
  (2 <= length (f_payload f))%nat /\
  (6 * f_count f <= length (drop 2 (f_payload f)))%nat /\
  length (f_footer f) = 4%nat.

(** What each revision does on such a frame. *)
Definition per_target_frame_trace (f : frame) : list (action PerTarget.Target) :=
  full_reads [[xf4]; [xf3; xf2; xf1]; [f_len0 f; f_len1 f]; f_payload f] ++
  target_sends (PerTarget.records (f_count f) (drop 1 (f_payload f))) ++
  [Call (CFlush None)].

Definition frame_level_frame_trace (f : frame) : list (action FrameLevel.Target) :=
  full_reads [[xf4]; [xf3; xf2; xf1]; [f_len0 f; f_len1 f]; f_payload f] ++
  target_sends (FrameLevel.records (f_count f) (drop 2 (f_payload f))) ++
  full_reads [f_footer f].

(** The frame of the scenario, and a frame with an alarm byte in front of
    its two records. *)
Definition scenario_frame : frame :=
  Frame x07 x00 [x01; x00; x90; x0a; x01; x14; x1e] [xf8; xf7; xf6; xf5].

Definition two_record_frame : frame :=
  Frame x0e x00 [x02; x01; x00; x90; x0a; x01; x14; x1e; x00; x70; x20; x00; x05; x09]
        [xf8; xf7; xf6; xf5].

(** The ranges the fields of a decoded target lie in. *)
Definition per_target_in_range (t : PerTarget.Target) : Prop :=
  -128 <= PerTarget.Angle t <= 127 /\
  0 <= PerTarget.Distance t <= 255 /\
  0 <= PerTarget.Direction t <= 255 /\
  0 <= PerTarget.Speed t <= 255 /\
  0 <= PerTarget.SNR t <= 255.

Definition frame_level_in_range (t : FrameLevel.Target) : Prop :=
  -128 <= FrameLevel.Angle t <= 127 /\
  0 <= FrameLevel.Distance t <= 255 /\
  0 <= FrameLevel.Direction t <= 255 /\
  0 <= FrameLevel.Speed t <= 255 /\
  0 <= FrameLevel.SNR t <= 255.

(** Every target a trace sends satisfies [R]. *)
Definition sends_only {T : Type} (R : T -> Prop) (a : action T) : Prop :=
  match a with
  | Send (SendTarget t) => R t
  | _ => True
  end.

(** What [read] may ask of the port: reads of 1 to 65535 bytes and, where
    [flushes] is set, flushes; no write. *)
Definition passive {T : Type} (flushes : bool) (a : action T) : Prop :=
  match a with
  | Call (CRead n _ _) => 1 <= Z.of_nat n <= 65535
  | Call (CFlush _) => flushes = true
  | Call (CWrite _ _) => False
  | Send _ => True
  end.

(** Every action of a statement satisfies [Q], from any port. *)
Definition always {P T A : Type} (Q : action T -> Prop) (m : M P T A) : Prop :=
  forall p, Forall Q (m p).2.

(** The bytes a port fed by bursts has still to deliver. *)
Definition held (p : chunked) : nat := length (concat (rx p)).

(** A statement leaves no more bytes in the port than it found. *)
Definition never_grows {T A : Type} (m : M chunked T A) : Prop :=
  forall p, (held (m p).1.2 <= held p)%nat.

(** The targets among some sends. *)
Definition targets_of {T : Type} (evs : list (event T)) : list T :=
  omap (fun ev => match ev with SendTarget t => Some t | SendError _ => None end) evs.

(** The targets [read] has sent or will send that no call has returned
    yet: those in the buffer, then those the goroutine has still to send. *)
Definition undelivered {T : Type} (l : LD2451 T) : list T :=
  targets l ++ targets_of (reader l).

(** A run of calls of [ReadTarget], with what each returned. *)
Inductive ReadTargets {T : Type} (zero : T)
  : LD2451 T -> list (T * option error) -> LD2451 T -> Prop :=
| ReadTargets_none l : ReadTargets zero l [] l
| ReadTargets_call l res l' ress l'' :
    ReadTarget zero l res l' -> ReadTargets zero l' ress l'' ->
    ReadTargets zero l (res :: ress) l''.

(** The targets a run of calls returned. *)
Definition delivered {T : Type} (ress : list (T * option error)) : list T :=
  omap (fun res : T * option error =>
          match res.2 with None => Some res.1 | Some _ => None end) ress.

(** Any moves of the two sides: sends into the buffer and calls. *)
Definition moves {T : Type} (zero : T) : LD2451 T -> LD2451 T -> Prop :=
  rtc (fun l l' => reader_step l l' \/ exists res, ReadTarget zero l res l').

(** * Properties *)

(** ** The runtime *)

Lemma neqb_true (a b : byte) : neqb a b = true <-> a <> b.
Proof.
  unfold neqb. rewrite negb_true_iff. split.
  - apply Byte.eqb_false.
  - intros Hne. destruct (Byte.eqb a b) eqn:E; [|done].
    destruct Hne. by apply Byte.byte_dec_bl.
Qed.

Lemma bytes_Equal_true (a b : list byte) : bytes_Equal a b = true <-> a = b.
Proof.
  revert b. induction a as [|x a IH]; intros [|y b]; simpl; try done.
  rewrite andb_true_iff, IH. split.
  - intros [E ->]. f_equal. by apply Byte.byte_dec_bl.
  - intros [= -> ->]. split; [by apply Byte.byte_dec_lb | done].
Qed.

Lemma bytes_Equal_false (a b : list byte) : a <> b -> bytes_Equal a b = false.
Proof.
  intros Hne. destruct (bytes_Equal a b) eqn:E; [|done].
  destruct Hne. by apply bytes_Equal_true.
Qed.

Section RuntimeFacts.
Context {P T : Type} `{Port P}.

Lemma length_store (got buf : list byte) : length (store got buf) = length buf.
Proof.
  unfold store. rewrite length_app, length_take, length_drop. lia.
Qed.

Lemma store_exact (got buf : list byte) :
  length got = length buf -> store got buf = got.
Proof.
  intros E. unfold store. rewrite <- E, firstn_all, drop_ge by lia.
  apply app_nil_r.
Qed.

Lemma length_make n : length (make n) = n.
Proof. apply length_replicate. Qed.

Lemma bind_ret {A B} (a : A) (f : A -> M P T B) p : bind (ret a) f p = f a p.
Proof. unfold bind, ret. by destruct (f a p) as [[r p'] tr]. Qed.

Lemma bind_assoc {A B C} (m : M P T A) (f : A -> M P T B) (g : B -> M P T C) p :
  bind (bind m f) g p = bind m (fun a => bind (f a) g) p.
Proof.
  unfold bind. destruct (m p) as [[[a| | |msg] p1] tr1]; try done.
  destruct (f a p1) as [[[b| | |msg] p2] tr2]; try done.
  destruct (g b p2) as [[r p3] tr3]. by rewrite app_assoc.
Qed.

Lemma bind_index {A} (buf : list byte) i b (f : byte -> M P T A) p :
  buf !! i = Some b -> bind (index buf i) f p = f b p.
Proof. intros E. unfold index. rewrite E. apply bind_ret. Qed.

Lemma bind_slice_from {A} (buf : list byte) lo (f : list byte -> M P T A) p :
  (lo <= length buf)%nat -> bind (slice_from buf lo) f p = f (drop lo buf) p.
Proof.
  intros Hle. unfold slice_from.
  rewrite (proj2 (Nat.leb_le _ _) Hle). apply bind_ret.
Qed.

Lemma bind_slice_to {A} (buf : list byte) hi (f : list byte -> M P T A) p :
  (hi <= length buf)%nat -> bind (slice_to buf hi) f p = f (take hi buf) p.
Proof.
  intros Hle. unfold slice_to.
  rewrite (proj2 (Nat.leb_le _ _) Hle). apply bind_ret.
Qed.

Lemma bind_errors_send_return {A} (e : error) (p : P) :
  bind (T:=T) (errors_send e) (fun _ => return_ (A:=A)) p =
  (Return, p, [Send (SendError e)]).
Proof. reflexivity. Qed.

Lemma forever_S (body : M P T unit) fuel p :
  forever body (S fuel) p =
  match body p with
  | (Next _, p', tr) | (Continue, p', tr) =>
      let '(r, p'', tr') := forever body fuel p' in (r, p'', tr ++ tr')
  | (Return, p', tr) => (Returned, p', tr)
  | (Panic msg, p', tr) => (Panicked msg, p', tr)
  end.
Proof. reflexivity. Qed.
End RuntimeFacts.

(** ** The loop over the targets *)

Section TargetLoops.
Context {P : Type} `{Port P}.

(** [src/LD2451.go]: the loop sends the target of every complete record
    among the first [n], and panics at the first record that is cut. *)
Lemma per_target_loop (n : nat) (buf : list byte) (p : P) :
  PerTarget.targets_loop n buf p =
  (if decide (6 * n <= length buf)%nat then Next tt
   else Panic (IndexOutOfRange (length buf `mod` 6)%nat (length buf `mod` 6)%nat),
   p, target_sends (PerTarget.records n buf)).
Proof.
  revert buf. induction n as [|n IH]; intros buf.
  - rewrite decide_True by lia. reflexivity.
  - destruct buf as [|b0 [|b1 [|b2 [|b3 [|b4 [|b5 rest]]]]]];
      try (rewrite decide_False by (simpl; lia); reflexivity).
    change (PerTarget.targets_loop (S n) (b0 :: b1 :: b2 :: b3 :: b4 :: b5 :: rest) p)
      with (let '(r, p', tr) := PerTarget.targets_loop n rest p in
            (r, p', Send (SendTarget (PerTarget.record_target b0 b1 b2 b3 b4 b5)) :: tr)).
    rewrite IH.
    replace (length (b0 :: b1 :: b2 :: b3 :: b4 :: b5 :: rest))
      with (length rest + 1 * 6)%nat by (simpl; lia).
    rewrite Nat.Div0.mod_add.
    destruct (decide (6 * n <= length rest)%nat);
      [rewrite decide_True by lia | rewrite decide_False by lia]; reflexivity.
Qed.

(** [src/unnamed/part_000]: the same, but the first byte of a record is
    not looked at, so a record of one byte fails at index 1. *)
Lemma frame_level_loop (n : nat) (buf : list byte) (p : P) :
  FrameLevel.targets_loop n buf p =
  (if decide (6 * n <= length buf)%nat then Next tt
   else Panic (IndexOutOfRange (Nat.max 1 (length buf `mod` 6)) (length buf `mod` 6)%nat),
   p, target_sends (FrameLevel.records n buf)).
Proof.
  revert buf. induction n as [|n IH]; intros buf.
  - rewrite decide_True by lia. reflexivity.
  - destruct buf as [|b0 [|b1 [|b2 [|b3 [|b4 [|b5 rest]]]]]];
      try (rewrite decide_False by (simpl; lia); reflexivity).
    change (FrameLevel.targets_loop (S n) (b0 :: b1 :: b2 :: b3 :: b4 :: b5 :: rest) p)
      with (let '(r, p', tr) := FrameLevel.targets_loop n rest p in
            (r, p', Send (SendTarget (FrameLevel.record_target b1 b2 b3 b4 b5)) :: tr)).
    rewrite IH.
    replace (length (b0 :: b1 :: b2 :: b3 :: b4 :: b5 :: rest))
      with (length rest + 1 * 6)%nat by (simpl; lia).
    rewrite Nat.Div0.mod_add.
    destruct (decide (6 * n <= length rest)%nat);
      [rewrite decide_True by lia | rewrite decide_False by lia]; reflexivity.
Qed.
End TargetLoops.

(** ** Reading a held burst *)

(** A read of as many bytes as [bs] has takes exactly [bs] off a burst
    that starts with it. *)
Lemma read_held {T : Type} (bs rest : list byte) more txd fault :
  bs <> [] ->
  port_Read (T:=T) (make (length bs)) (Chunked ((bs ++ rest) :: more) txd fault) =
  (Next (bs, None), Chunked (rest :: more) txd fault,
   [Call (CRead (length bs) bs None)]).
Proof.
  intros Hne. unfold port_Read. rewrite length_make.
  destruct bs as [|b bs]; [done|]. cbn [Read chunked_port rx tx tx_fault].
  change ((b :: bs) ++ rest) with (b :: (bs ++ rest)).
  cbn [rx_read]. change (b :: (bs ++ rest)) with ((b :: bs) ++ rest).
  rewrite take_app_length, drop_app_length, store_exact by (symmetry; apply length_make).
  reflexivity.
Qed.

Lemma bind_read_held {T A : Type} (bs rest : list byte) more txd fault
    (f : list byte * option error -> M chunked T A) :
  bs <> [] ->
  bind (port_Read (make (length bs))) f (Chunked ((bs ++ rest) :: more) txd fault) =
  (let '(r, p, tr) := f (bs, None) (Chunked (rest :: more) txd fault) in
   (r, p, Call (CRead (length bs) bs None) :: tr)).
Proof.
  intros Hne. unfold bind. rewrite read_held by done.
  by destruct (f _ _) as [[r p] tr].
Qed.

(** Running a body over a held burst, one statement at a time. *)
Ltac read_block bs :=
  lazymatch goal with
  | |- context [bind (port_Read (make ?n)) ?f (Chunked (?l :: ?more) ?txd ?fault)] =>
      let rest := eval cbv beta iota fix delta [skipn] in (skipn n l) in
      change (bind (port_Read (make n)) f (Chunked (l :: more) txd fault))
        with (bind (port_Read (make (length bs))) f (Chunked ((bs ++ rest) :: more) txd fault));
      rewrite (bind_read_held bs rest) by discriminate;
      cbv beta iota
  end.

Ltac index_ok := erewrite bind_index by reflexivity; cbv beta iota.

Ltac slice_ok := rewrite bind_slice_from by (cbn; lia); cbv beta iota.

Ltac test_is v :=
  lazymatch goal with
  | |- context [if ?c then _ else _] => change c with v; cbv beta iota
  end.

(** C7: a frame whose length field decodes to 0 sends no target; the run
    reads exactly the 4 bytes that follow the length field and goes on as
    the run on the rest of the stream, in both revisions. *)
Theorem zero_length_frame (fuel : nat) (l0 l1 f0 f1 f2 f3 : byte)
    (rest : list byte) (more txd : list (list byte)) (fault : option error) :
  frameLength_of l1 l0 = 0 ->
  let frame := xf4 :: xf3 :: xf2 :: xf1 :: l0 :: l1 :: f0 :: f1 :: f2 :: f3 :: rest in
  let blocks := [[xf4]; [xf3; xf2; xf1]; [l0; l1]; [f0; f1; f2; f3]] in
  PerTarget.read (S fuel) (Chunked (frame :: more) txd fault) =
    (let '(r, p, tr) := PerTarget.read fuel (Chunked (rest :: more) txd fault) in
     (r, p, full_reads blocks ++ tr)) /\
  FrameLevel.read (S fuel) (Chunked (frame :: more) txd fault) =
    (let '(r, p, tr) := FrameLevel.read fuel (Chunked (rest :: more) txd fault) in
     (r, p, full_reads blocks ++ tr)).
Proof.
  intros Hlen frame blocks.
  assert (Hb : PerTarget.read_body (Chunked (frame :: more) txd fault) =
               (Continue, Chunked (rest :: more) txd fault, full_reads blocks)).
  { subst frame. unfold PerTarget.read_body.
    read_block [xf4]. index_ok. test_is false.
    read_block [xf3; xf2; xf1]. slice_ok. test_is true.
    read_block [l0; l1]. do 2 index_ok. rewrite Hlen. test_is true.
    by read_block [f0; f1; f2; f3]. }
  assert (Hf : FrameLevel.read_body (Chunked (frame :: more) txd fault) =
               (Continue, Chunked (rest :: more) txd fault, full_reads blocks)).
  { subst frame. unfold FrameLevel.read_body.
    read_block [xf4]. do 2 index_ok. test_is false.
    read_block [xf3; xf2; xf1]. slice_ok. test_is true.
    read_block [l0; l1]. do 2 index_ok. rewrite Hlen. test_is true.
    by read_block [f0; f1; f2; f3]. }
  unfold PerTarget.read, FrameLevel.read. rewrite !forever_S, Hb, Hf. done.
Qed.

(** The frame F4 F3 F2 F1 00 00 F8 F7 F6 F5 alone: four reads, then the
    port has nothing more. *)
Lemma zero_length_frame_witness :
  PerTarget.read 2 (stream [xf4; xf3; xf2; xf1; x00; x00; xf8; xf7; xf6; xf5]) =
  (Returned, Chunked [] [] None,
   full_reads [[xf4]; [xf3; xf2; xf1]; [x00; x00]; [xf8; xf7; xf6; xf5]] ++
   [Call (CRead 1 [] (Some EOF)); Send (SendError EOF)]).
Proof.
  exact (proj1 (zero_length_frame 1 x00 x00 xf8 xf7 xf6 xf5 [] [] [] None eq_refl)).
Defined.

(** C6: after a byte 0xF4, a 3-byte block other than F3 F2 F1 is dropped
    whole: the run reads nothing else in that turn and goes on as the run
    on the stream behind the block, so the 3 bytes are never looked at
    again, in both revisions. *)
Theorem header_mismatch_drops_block (fuel : nat) (a b c : byte)
    (rest : list byte) (more txd : list (list byte)) (fault : option error) :
  [a; b; c] <> [xf3; xf2; xf1] ->
  PerTarget.read (S fuel) (Chunked ((xf4 :: a :: b :: c :: rest) :: more) txd fault) =
    (let '(r, p, tr) := PerTarget.read fuel (Chunked (rest :: more) txd fault) in
     (r, p, full_reads [[xf4]; [a; b; c]] ++ tr)) /\
  FrameLevel.read (S fuel) (Chunked ((xf4 :: a :: b :: c :: rest) :: more) txd fault) =
    (let '(r, p, tr) := FrameLevel.read fuel (Chunked (rest :: more) txd fault) in
     (r, p, full_reads [[xf4]; [a; b; c]] ++ tr)).
Proof.
  intros Hne. apply bytes_Equal_false in Hne.
  assert (Hb : PerTarget.read_body (Chunked ((xf4 :: a :: b :: c :: rest) :: more) txd fault) =
               (Next tt, Chunked (rest :: more) txd fault, full_reads [[xf4]; [a; b; c]])).
  { unfold PerTarget.read_body.
    read_block [xf4]. index_ok. test_is false.
    read_block [a; b; c]. slice_ok.
    change (drop 1 frameheader) with [xf3; xf2; xf1]. by rewrite Hne. }
  assert (Hf : FrameLevel.read_body (Chunked ((xf4 :: a :: b :: c :: rest) :: more) txd fault) =
               (Next tt, Chunked (rest :: more) txd fault, full_reads [[xf4]; [a; b; c]])).
  { unfold FrameLevel.read_body.
    read_block [xf4]. do 2 index_ok. test_is false.
    read_block [a; b; c]. slice_ok.
    change (drop 1 frameheader) with [xf3; xf2; xf1]. by rewrite Hne. }
  unfold PerTarget.read, FrameLevel.read. rewrite !forever_S, Hb, Hf. done.
Qed.

(** The header that starts inside the dropped block is missed: of the
    stream F4 | F4 F3 F2 F1 00 00 F8 F7 F6 F5 the run drops F4 F3 F2 and
    goes on at F1. *)
Lemma header_mismatch_drops_block_witness :
  PerTarget.read 9 (stream [xf4; xf4; xf3; xf2; xf1; x00; x00; xf8; xf7; xf6; xf5]) =
  (let '(r, p, tr) := PerTarget.read 8 (stream [xf1; x00; x00; xf8; xf7; xf6; xf5]) in
   (r, p, full_reads [[xf4]; [xf4; xf3; xf2]] ++ tr)).
Proof.
  refine (proj1 (header_mismatch_drops_block 8 xf4 xf3 xf2
                   [xf1; x00; x00; xf8; xf7; xf6; xf5] [] [] None _)).
  discriminate.
Defined.

(** The whole run on such a stream: the frame behind the stray F4 is not
    recognised, all its bytes are skipped one by one. *)
Example overlapping_header_missed :
  PerTarget.read 9 (stream [xf4; xf4; xf3; xf2; xf1; x00; x00; xf8; xf7; xf6; xf5]) =
  (Returned, Chunked [] [] None,
   full_reads [[xf4]; [xf4; xf3; xf2]; [xf1]; [x00]; [x00]; [xf8]; [xf7]; [xf6]; [xf5]] ++
   [Call (CRead 1 [] (Some EOF)); Send (SendError EOF)]).
Proof. vm_compute. reflexivity. Qed.

(** ** Frames with a payload *)

Lemma length_per_target_records (n : nat) (buf : list byte) :
  length (PerTarget.records n buf) = (n `min` (length buf `div` 6))%nat.
Proof.
  revert buf. induction n as [|n IH]; intros buf; [done|].
  destruct buf as [|b0 [|b1 [|b2 [|b3 [|b4 [|b5 rest]]]]]]; try done.
  cbn [PerTarget.records length]. rewrite IH.
  replace (S (S (S (S (S (S (length rest))))))) with (length rest + 1 * 6)%nat by lia.
  rewrite Nat.div_add by done. lia.
Qed.

Lemma length_frame_level_records (n : nat) (buf : list byte) :
  length (FrameLevel.records n buf) = (n `min` (length buf `div` 6))%nat.
Proof.
  revert buf. induction n as [|n IH]; intros buf; [done|].
  destruct buf as [|b0 [|b1 [|b2 [|b3 [|b4 [|b5 rest]]]]]]; try done.
  cbn [FrameLevel.records length]. rewrite IH.
  replace (S (S (S (S (S (S (length rest))))))) with (length rest + 1 * 6)%nat by lia.
  rewrite Nat.div_add by done. lia.
Qed.

(** [src/LD2451.go]: header, length field and payload of a held frame are
    read in four reads, and lines 131-152 run on the payload. *)
Lemma per_target_frame (l0 l1 : byte) (payload rest : list byte) more txd fault :
  frameLength_of l1 l0 = Z.of_nat (length payload) ->
  payload <> [] ->
  PerTarget.read_body
    (Chunked ((xf4 :: xf3 :: xf2 :: xf1 :: l0 :: l1 :: payload ++ rest) :: more) txd fault) =
  (let '(r, p, tr) :=
     bind (index payload 0) (fun b =>
     bind (slice_from payload 1) (fun buf =>
     bind (PerTarget.targets_loop (Z.to_nat (int b)) buf) (fun _ => port_Flush)))
       (Chunked (rest :: more) txd fault) in
   (r, p, full_reads [[xf4]; [xf3; xf2; xf1]; [l0; l1]; payload] ++ tr)).
Proof.
  intros Hlen Hne. unfold PerTarget.read_body.
  read_block [xf4]. index_ok. test_is false.
  read_block [xf3; xf2; xf1]. slice_ok. test_is true.
  read_block [l0; l1]. do 2 index_ok. rewrite Hlen.
  rewrite (proj2 (Z.eqb_neq _ _)) by (destruct payload; [done | simpl; lia]).
  rewrite Nat2Z.id, (bind_read_held payload) by done. cbv beta iota.
  by destruct (bind _ _ _) as [[r p] tr].
Qed.

(** [src/unnamed/part_000]: the same four reads, then lines 133-159. *)
Lemma frame_level_frame (l0 l1 : byte) (payload rest : list byte) more txd fault :
  frameLength_of l1 l0 = Z.of_nat (length payload) ->
  payload <> [] ->
  FrameLevel.read_body
    (Chunked ((xf4 :: xf3 :: xf2 :: xf1 :: l0 :: l1 :: payload ++ rest) :: more) txd fault) =
  (let '(r, p, tr) :=
     bind (FrameLevel.decode_payload payload) (fun _ =>
     bind (port_Read (make 4)) (fun '(_, err) =>
       if err is Some e then bind (errors_send e) (fun _ => return_) else ret tt))
       (Chunked (rest :: more) txd fault) in
   (r, p, full_reads [[xf4]; [xf3; xf2; xf1]; [l0; l1]; payload] ++ tr)).
Proof.
  intros Hlen Hne. unfold FrameLevel.read_body.
  read_block [xf4]. do 2 index_ok. test_is false.
  read_block [xf3; xf2; xf1]. slice_ok. test_is true.
  read_block [l0; l1]. do 2 index_ok. rewrite Hlen.
  rewrite (proj2 (Z.eqb_neq _ _)) by (destruct payload; [done | simpl; lia]).
  rewrite Nat2Z.id, (bind_read_held payload) by done. cbv beta iota.
  by destruct (bind _ _ _) as [[r p] tr].
Qed.

Section AfterTheLoop.
Context {P A : Type} `{Port P}.

Lemma bind_per_target_loop (n : nat) (buf : list byte)
    (f : unit -> M P PerTarget.Target A) (p : P) :
  (6 * n <= length buf)%nat ->
  bind (PerTarget.targets_loop n buf) f p =
  (let '(r, p', tr) := f tt p in
   (r, p', target_sends (PerTarget.records n buf) ++ tr)).
Proof.
  intros Hfit. unfold bind. rewrite per_target_loop, decide_True by done.
  by destruct (f tt p) as [[r p'] tr].
Qed.

Lemma bind_per_target_loop_short (n : nat) (buf : list byte)
    (f : unit -> M P PerTarget.Target A) (p : P) :
  (length buf < 6 * n)%nat ->
  bind (PerTarget.targets_loop n buf) f p =
  (Panic (IndexOutOfRange (length buf `mod` 6)%nat (length buf `mod` 6)%nat), p,
   target_sends (PerTarget.records n buf)).
Proof.
  intros Hshort. unfold bind. by rewrite per_target_loop, decide_False by lia.
Qed.

Lemma bind_frame_level_decode (nt alarm : byte) (recs : list byte)
    (f : unit -> M P FrameLevel.Target A) (p : P) :
  (6 * Z.to_nat (int nt) <= length recs)%nat ->
  bind (FrameLevel.decode_payload (nt :: alarm :: recs)) f p =
  (let '(r, p', tr) := f tt p in
   (r, p', target_sends (FrameLevel.records (Z.to_nat (int nt)) recs) ++ tr)).
Proof.
  intros Hfit. unfold FrameLevel.decode_payload. rewrite bind_assoc.
  rewrite (bind_index _ 0 nt), bind_assoc, bind_slice_from by (cbn; done || lia).
  change (drop 2 (nt :: alarm :: recs)) with recs.
  unfold bind. rewrite frame_level_loop, decide_True by done.
  by destruct (f tt p) as [[r p'] tr].
Qed.

Lemma bind_frame_level_decode_short (nt alarm : byte) (recs : list byte)
    (f : unit -> M P FrameLevel.Target A) (p : P) :
  (length recs < 6 * Z.to_nat (int nt))%nat ->
  bind (FrameLevel.decode_payload (nt :: alarm :: recs)) f p =
  (Panic (IndexOutOfRange (Nat.max 1 (length recs `mod` 6)) (length recs `mod` 6)%nat), p,
   target_sends (FrameLevel.records (Z.to_nat (int nt)) recs)).
Proof.
  intros Hshort. unfold FrameLevel.decode_payload. rewrite bind_assoc.
  rewrite (bind_index _ 0 nt), bind_assoc, bind_slice_from by (cbn; done || lia).
  change (drop 2 (nt :: alarm :: recs)) with recs.
  unfold bind. by rewrite frame_level_loop, decide_False by lia.
Qed.

Lemma bind_frame_level_decode_one (nt : byte)
    (f : unit -> M P FrameLevel.Target A) (p : P) :
  bind (FrameLevel.decode_payload [nt]) f p =
  (Panic (SliceBoundsOutOfRange 2 1), p, []).
Proof. reflexivity. Qed.
End AfterTheLoop.

(** A byte other than 0xF4 takes one turn of [src/LD2451.go]. *)
Lemma per_target_skips (fuel : nat) (b : byte) (rest : list byte)
    (more txd : list (list byte)) (fault : option error) :
  b <> xf4 ->
  PerTarget.read (S fuel) (Chunked ((b :: rest) :: more) txd fault) =
  (let '(r, p, tr) := PerTarget.read fuel (Chunked (rest :: more) txd fault) in
   (r, p, Call (CRead 1 [b] None) :: tr)).
Proof.
  intros Hb. apply neqb_true in Hb. unfold PerTarget.read. rewrite forever_S.
  assert (Hp : PerTarget.read_body (Chunked ((b :: rest) :: more) txd fault) =
               (Continue, Chunked (rest :: more) txd fault, [Call (CRead 1 [b] None)])).
  { unfold PerTarget.read_body. read_block [b]. index_ok. by rewrite Hb. }
  rewrite Hp. by destruct (forever _ _ _) as [[r p] tr].
Qed.

(** C8, as stated, fails on [src/LD2451.go]: every read is served in
    full, and the footer of the frame of the scenario is received after
    the payload was read.  The turn that decodes the frame ends with the
    flush, which finds nothing to drop, and the four bytes of the footer
    are still in the port when the loop is back at the scan for a header;
    the scan then takes them one per turn, as it takes any byte that is
    not 0xF4. *)
Lemma footer_left_in_port_counterexample :
  PerTarget.read_body (Chunked [take 13 scenario; drop 13 scenario] [] None) =
  (Next tt, Chunked [[xf8; xf7; xf6; xf5]] [] None,
   full_reads [[xf4]; [xf3; xf2; xf1]; [x07; x00];
               [x01; x00; x90; x0a; x01; x14; x1e]] ++
   [Send (SendTarget (PerTarget.mkTarget false 16 10 DirectionToward 20 30));
    Call (CFlush None)]) /\
  PerTarget.read 6 (Chunked [take 13 scenario; drop 13 scenario] [] None) =
  (Returned, Chunked [] [] None,
   full_reads [[xf4]; [xf3; xf2; xf1]; [x07; x00];
               [x01; x00; x90; x0a; x01; x14; x1e]] ++
   [Send (SendTarget (PerTarget.mkTarget false 16 10 DirectionToward 20 30));
    Call (CFlush None)] ++
   full_reads [[xf8]; [xf7]; [xf6]; [xf5]] ++
   [Call (CRead 1 [] (Some EOF)); Send (SendError EOF)]).
Proof. split; reflexivity. Qed.

(** C8, amended: when the records of all [numTargets] targets are in the
    payload, [src/unnamed/part_000] reads exactly the 4 bytes behind the
    payload, whatever they are, and goes on right behind them.
    [src/LD2451.go] reads no footer: it flushes the port once, which drops
    what the port holds of the stream at that moment, the footer if it has
    been received and everything received with it; a footer received
    after the flush is still in the port when the scan for a header starts
    again, and the scan takes it one byte per turn. *)
Theorem footer_read_or_flushed (fuel : nat) (l0 l1 nt : byte) (recs : list byte)
    (more txd : list (list byte)) (fault : option error) :
  (6 * Z.to_nat (int nt) <= length recs)%nat ->
  (forall (alarm f0 f1 f2 f3 : byte) (rest : list byte),
   frameLength_of l1 l0 = Z.of_nat (length (nt :: alarm :: recs)) ->
   FrameLevel.read (S fuel)
     (Chunked ((xf4 :: xf3 :: xf2 :: xf1 :: l0 :: l1 ::
                (nt :: alarm :: recs) ++ f0 :: f1 :: f2 :: f3 :: rest) :: more) txd fault) =
   (let '(r, p, tr) := FrameLevel.read fuel (Chunked (rest :: more) txd fault) in
    (r, p,
     full_reads [[xf4]; [xf3; xf2; xf1]; [l0; l1]; nt :: alarm :: recs] ++
     target_sends (FrameLevel.records (Z.to_nat (int nt)) recs) ++
     full_reads [[f0; f1; f2; f3]] ++ tr))) /\
  (forall held_back : list byte,
   frameLength_of l1 l0 = Z.of_nat (length (nt :: recs)) ->
   PerTarget.read (S fuel)
     (Chunked ((xf4 :: xf3 :: xf2 :: xf1 :: l0 :: l1 :: (nt :: recs) ++ held_back) :: more)
        txd fault) =
   (let '(r, p, tr) := PerTarget.read fuel (Chunked more txd fault) in
    (r, p,
     full_reads [[xf4]; [xf3; xf2; xf1]; [l0; l1]; nt :: recs] ++
     target_sends (PerTarget.records (Z.to_nat (int nt)) recs) ++
     Call (CFlush None) :: tr))) /\
  (forall rest : list byte,
   frameLength_of l1 l0 = Z.of_nat (length (nt :: recs)) ->
   PerTarget.read (S (4 + fuel))
     (Chunked ((xf4 :: xf3 :: xf2 :: xf1 :: l0 :: l1 :: nt :: recs) ::
               (xf8 :: xf7 :: xf6 :: xf5 :: rest) :: more) txd fault) =
   (let '(r, p, tr) := PerTarget.read fuel (Chunked (rest :: more) txd fault) in
    (r, p,
     full_reads [[xf4]; [xf3; xf2; xf1]; [l0; l1]; nt :: recs] ++
     target_sends (PerTarget.records (Z.to_nat (int nt)) recs) ++
     Call (CFlush None) :: full_reads [[xf8]; [xf7]; [xf6]; [xf5]] ++ tr))).
Proof.
  intros Hfit.
  assert (Hflush : forall n (held_back : list byte) later_bursts,
            frameLength_of l1 l0 = Z.of_nat (length (nt :: recs)) ->
            PerTarget.read (S n)
              (Chunked ((xf4 :: xf3 :: xf2 :: xf1 :: l0 :: l1 :: (nt :: recs) ++ held_back)
                        :: later_bursts) txd fault) =
            (let '(r, p, tr) := PerTarget.read n (Chunked later_bursts txd fault) in
             (r, p,
              full_reads [[xf4]; [xf3; xf2; xf1]; [l0; l1]; nt :: recs] ++
              target_sends (PerTarget.records (Z.to_nat (int nt)) recs) ++
              Call (CFlush None) :: tr))).
  { intros n held_back later_bursts Hlen. unfold PerTarget.read. rewrite forever_S.
    rewrite (per_target_frame l0 l1 (nt :: recs)) by done.
    rewrite (bind_index _ 0 nt), bind_slice_from by (cbn; done || lia).
    change (drop 1 (nt :: recs)) with recs.
    rewrite bind_per_target_loop by done.
    cbn [port_Flush Flush chunked_port rx tx tx_fault tail].
    destruct (forever _ _ _) as [[r p] tr].
    by rewrite <- !app_assoc. }
  split; [|split].
  - intros alarm f0 f1 f2 f3 rest Hlen. unfold FrameLevel.read. rewrite forever_S.
    rewrite (frame_level_frame l0 l1 (nt :: alarm :: recs)) by done.
    rewrite bind_frame_level_decode by done.
    read_block [f0; f1; f2; f3]. unfold ret.
    destruct (forever _ _ _) as [[r p] tr].
    by rewrite <- !app_assoc.
  - intros held_back Hlen. by apply Hflush.
  - intros rest Hlen.
    replace (xf4 :: xf3 :: xf2 :: xf1 :: l0 :: l1 :: nt :: recs)
      with (xf4 :: xf3 :: xf2 :: xf1 :: l0 :: l1 :: (nt :: recs) ++ [])
      by (by rewrite app_nil_r).
    rewrite Hflush by done.
    change (4 + fuel)%nat with (S (S (S (S fuel)))).
    rewrite !per_target_skips by discriminate.
    by destruct (PerTarget.read fuel _) as [[r p] tr].
Qed.

(** The frame of the scenario in [src/LD2451.go], its footer received
    with it and its footer received after it. *)
Lemma footer_read_or_flushed_witness :
  PerTarget.read 2 (stream scenario) =
  (let '(r, p, tr) := PerTarget.read 1 (Chunked [] [] None) in
   (r, p,
    full_reads [[xf4]; [xf3; xf2; xf1]; [x07; x00];
                [x01; x00; x90; x0a; x01; x14; x1e]] ++
    target_sends (PerTarget.records 1 [x00; x90; x0a; x01; x14; x1e]) ++
    Call (CFlush None) :: tr)) /\
  PerTarget.read 6 (Chunked [take 13 scenario; drop 13 scenario] [] None) =
  (let '(r, p, tr) := PerTarget.read 1 (Chunked [[]] [] None) in
   (r, p,
    full_reads [[xf4]; [xf3; xf2; xf1]; [x07; x00];
                [x01; x00; x90; x0a; x01; x14; x1e]] ++
    target_sends (PerTarget.records 1 [x00; x90; x0a; x01; x14; x1e]) ++
    Call (CFlush None) :: full_reads [[xf8]; [xf7]; [xf6]; [xf5]] ++ tr)).
Proof.
  assert (Hfit : (6 * Z.to_nat (int x01) <= length [x00; x90; x0a; x01; x14; x1e])%nat)
    by (vm_compute; lia).
  split.
  - exact (proj1 (proj2 (footer_read_or_flushed 1 x07 x00 x01
                           [x00; x90; x0a; x01; x14; x1e] [] [] None Hfit))
             [xf8; xf7; xf6; xf5] eq_refl).
  - exact (proj2 (proj2 (footer_read_or_flushed 1 x07 x00 x01
                           [x00; x90; x0a; x01; x14; x1e] [] [] None Hfit))
             [] eq_refl).
Defined.

(** When a second frame is held together with the first, the flush of
    [src/LD2451.go] drops it with the footer of the first. *)
Example flush_drops_next_frame :
  PerTarget.read 2 (stream (scenario ++ scenario)) =
  (Returned, Chunked [] [] None,
   full_reads [[xf4]; [xf3; xf2; xf1]; [x07; x00];
               [x01; x00; x90; x0a; x01; x14; x1e]] ++
   [Send (SendTarget (PerTarget.mkTarget false 16 10 DirectionToward 20 30));
    Call (CFlush None);
    Call (CRead 1 [] (Some EOF)); Send (SendError EOF)]).
Proof. reflexivity. Qed.

(** ** Payloads that are too short *)

(** C2, as stated, fails on [src/LD2451.go]: on a frame that announces 2
    targets and holds 6 record bytes the goroutine sends the first target
    and no error, and ends in a panic in its first turn with the next
    frame unread; more turns change nothing. *)
Lemma short_payload_counterexample :
  PerTarget.read 1 (stream short_then_good) =
  (Panicked (IndexOutOfRange 0 0),
   Chunked [[xf8; xf7; xf6; xf5] ++ scenario] [] None,
   full_reads [[xf4]; [xf3; xf2; xf1]; [x07; x00];
               [x02; x00; x90; x0a; x01; x14; x1e]] ++
   [Send (SendTarget (PerTarget.mkTarget false 16 10 DirectionToward 20 30))]) /\
  (forall fuel,
   PerTarget.read (S fuel) (stream short_then_good) =
   PerTarget.read 1 (stream short_then_good)).
Proof. split; [|intros fuel]; reflexivity. Qed.

(** C2, amended: when the payload holds fewer than 6*numTargets bytes of
    records, the goroutine sends one target for each complete record,
    nothing for the record that is cut and no error, and ends in a
    run-time panic with the rest of the stream unread: out of range at
    the cut record, or, in [src/unnamed/part_000] on a payload of one
    byte, at the slice that skips the alarm byte. *)
Theorem short_payload_panics (fuel : nat) (l0 l1 nt : byte) (recs rest : list byte)
    (more txd : list (list byte)) (fault : option error) :
  (length recs < 6 * Z.to_nat (int nt))%nat ->
  let n := Z.to_nat (int nt) in
  let r := (length recs `mod` 6)%nat in
  (frameLength_of l1 l0 = Z.of_nat (length (nt :: recs)) ->
   PerTarget.read (S fuel)
     (Chunked ((xf4 :: xf3 :: xf2 :: xf1 :: l0 :: l1 :: (nt :: recs) ++ rest) :: more)
        txd fault) =
   (Panicked (IndexOutOfRange r r), Chunked (rest :: more) txd fault,
    full_reads [[xf4]; [xf3; xf2; xf1]; [l0; l1]; nt :: recs] ++
    target_sends (PerTarget.records n recs))) /\
  (forall alarm : byte,
   frameLength_of l1 l0 = Z.of_nat (length (nt :: alarm :: recs)) ->
   FrameLevel.read (S fuel)
     (Chunked ((xf4 :: xf3 :: xf2 :: xf1 :: l0 :: l1 :: (nt :: alarm :: recs) ++ rest) :: more)
        txd fault) =
   (Panicked (IndexOutOfRange (Nat.max 1 r) r), Chunked (rest :: more) txd fault,
    full_reads [[xf4]; [xf3; xf2; xf1]; [l0; l1]; nt :: alarm :: recs] ++
    target_sends (FrameLevel.records n recs))) /\
  (frameLength_of l1 l0 = 1 ->
   FrameLevel.read (S fuel)
     (Chunked ((xf4 :: xf3 :: xf2 :: xf1 :: l0 :: l1 :: [nt] ++ rest) :: more) txd fault) =
   (Panicked (SliceBoundsOutOfRange 2 1), Chunked (rest :: more) txd fault,
    full_reads [[xf4]; [xf3; xf2; xf1]; [l0; l1]; [nt]])) /\
  length (PerTarget.records n recs) = (length recs `div` 6)%nat /\
  length (FrameLevel.records n recs) = (length recs `div` 6)%nat.
Proof.
  intros Hshort n r.
  assert (Hdiv : (length recs `div` 6 < n)%nat)
    by (apply Nat.Div0.div_lt_upper_bound; lia).
  split; [|split; [|split; [|split]]].
  - intros Hlen. unfold PerTarget.read. rewrite forever_S.
    rewrite (per_target_frame l0 l1 (nt :: recs)) by done.
    rewrite (bind_index _ 0 nt), bind_slice_from by (cbn; done || lia).
    change (drop 1 (nt :: recs)) with recs.
    rewrite bind_per_target_loop_short by done. done.
  - intros alarm Hlen. unfold FrameLevel.read. rewrite forever_S.
    rewrite (frame_level_frame l0 l1 (nt :: alarm :: recs)) by done.
    by rewrite bind_frame_level_decode_short by done.
  - intros Hlen. unfold FrameLevel.read. rewrite forever_S.
    by rewrite (frame_level_frame l0 l1 [nt]) by done.
  - rewrite length_per_target_records. lia.
  - rewrite length_frame_level_records. lia.
Qed.

(** The frame that announces 2 targets and holds one record. *)
Lemma short_payload_panics_witness :
  PerTarget.read 1 (stream short_then_good) =
  (Panicked (IndexOutOfRange 0 0),
   Chunked [[xf8; xf7; xf6; xf5] ++ scenario] [] None,
   full_reads [[xf4]; [xf3; xf2; xf1]; [x07; x00];
               [x02; x00; x90; x0a; x01; x14; x1e]] ++
   target_sends (PerTarget.records 2 [x00; x90; x0a; x01; x14; x1e])).
Proof.
  refine (proj1 (short_payload_panics 0 x07 x00 x02 [x00; x90; x0a; x01; x14; x1e]
                   ([xf8; xf7; xf6; xf5] ++ scenario) [] [] None _) eq_refl).
  vm_compute. lia.
Defined.

(** ** The scenario of the specification *)

(** C1 on [src/unnamed/part_000]: the stream of the scenario sends no
    target.  After the count and the alarm byte are skipped 5 bytes are
    left, the record is read at the indices 1 to 5, and [buf[5]] is out
    of range: the goroutine panics in its first turn. *)
Theorem scenario_frame_level_panics (fuel : nat) :
  FrameLevel.read (S fuel) (stream scenario) =
  (Panicked (IndexOutOfRange 5 5), Chunked [[xf8; xf7; xf6; xf5]] [] None,
   full_reads [[xf4]; [xf3; xf2; xf1]; [x07; x00];
               [x01; x00; x90; x0a; x01; x14; x1e]]).
Proof. reflexivity. Qed.

(** C1 on [src/LD2451.go]: the same stream sends exactly one target, with
    angle 16, distance 10, direction Toward, speed 20 and SNR 30 (and the
    alarm off), then the port reports the end of the stream. *)
Lemma scenario_per_target_decodes :
  PerTarget.read 2 (stream scenario) =
  (Returned, Chunked [] [] None,
   full_reads [[xf4]; [xf3; xf2; xf1]; [x07; x00];
               [x01; x00; x90; x0a; x01; x14; x1e]] ++
   [Send (SendTarget (PerTarget.mkTarget false 16 10 DirectionToward 20 30));
    Call (CFlush None);
    Call (CRead 1 [] (Some EOF)); Send (SendError EOF)]) /\
  Direction_String DirectionToward = "Toward"%string.
Proof. split; reflexivity. Qed.

(** ** The first byte of a record in [src/unnamed/part_000] *)

Lemma sends_app {T} (tr1 tr2 : list (action T)) :
  sends (tr1 ++ tr2) = sends tr1 ++ sends tr2.
Proof. apply omap_app. Qed.

Lemma sends_full_reads {T} (blocks : list (list byte)) :
  sends (T:=T) (full_reads blocks) = [].
Proof. by induction blocks. Qed.

Lemma frame_level_records_insert (n k : nat) (v : byte) (buf : list byte) :
  FrameLevel.records n (<[(6 * k)%nat := v]> buf) = FrameLevel.records n buf.
Proof.
  revert k buf. induction n as [|n IH]; intros k buf; [done|].
  destruct k as [|k].
  - by destruct buf as [|b0 [|b1 [|b2 [|b3 [|b4 [|b5 rest]]]]]].
  - replace (6 * S k)%nat with (S (S (S (S (S (S (6 * k)))))))%nat by lia.
    destruct buf as [|b0 [|b1 [|b2 [|b3 [|b4 [|b5 rest]]]]]]; try done.
    cbn [list_insert insert FrameLevel.records]. by rewrite IH.
Qed.

(** Lines 133-152 do the same whatever the first byte of a record is. *)
Lemma frame_level_decode_insert {P} `{Port P} (payload : list byte) (k : nat)
    (v : byte) (p : P) :
  FrameLevel.decode_payload (<[(2 + 6 * k)%nat := v]> payload) p =
  FrameLevel.decode_payload payload p.
Proof.
  unfold FrameLevel.decode_payload.
  destruct payload as [|nt [|alarm recs]]; try done.
  change (<[(2 + 6 * k)%nat := v]> (nt :: alarm :: recs))
    with (nt :: alarm :: <[(6 * k)%nat := v]> recs).
  rewrite !(bind_index _ 0 nt), !bind_slice_from by (cbn; done || lia).
  change (drop 2 (nt :: alarm :: ?l)) with l.
  by rewrite !frame_level_loop, length_insert, frame_level_records_insert.
Qed.

Lemma bind_decode_insert {P A} `{Port P} (payload : list byte) (k : nat) (v : byte)
    (f : unit -> M P FrameLevel.Target A) (p : P) :
  bind (FrameLevel.decode_payload (<[(2 + 6 * k)%nat := v]> payload)) f p =
  bind (FrameLevel.decode_payload payload) f p.
Proof. unfold bind. by rewrite frame_level_decode_insert. Qed.

(** C10: in [src/unnamed/part_000] the byte at offset 0 of a record (the
    payload byte [2 + 6k]) is never read: with any other value there, a
    frame gives the same sends, ends the turn the same way and leaves the
    port the same. *)
Theorem record_byte_0_unread (l0 l1 v : byte) (k : nat) (payload rest : list byte)
    (more txd : list (list byte)) (fault : option error) :
  frameLength_of l1 l0 = Z.of_nat (length payload) ->
  payload <> [] ->
  let run (bs : list byte) :=
    FrameLevel.read_body
      (Chunked ((xf4 :: xf3 :: xf2 :: xf1 :: l0 :: l1 :: bs ++ rest) :: more) txd fault) in
  let '(r1, p1, tr1) := run (<[(2 + 6 * k)%nat := v]> payload) in
  let '(r2, p2, tr2) := run payload in
  r1 = r2 /\ p1 = p2 /\ sends tr1 = sends tr2.
Proof.
  intros Hlen Hne run. subst run. cbv beta.
  assert (Hne' : <[(2 + 6 * k)%nat := v]> payload <> [])
    by (intros E; apply (f_equal length) in E; rewrite length_insert in E;
        by destruct payload).
  rewrite !frame_level_frame by (by rewrite ?length_insert).
  rewrite bind_decode_insert.
  destruct (bind _ _ _) as [[r p] tr].
  by rewrite !sends_app, !sends_full_reads.
Qed.

(** ** A read error is a hard failure, and the only one *)

Section ReadErrors.
Context {P T : Type} `{Port P}.

Lemma failed_app (tr1 tr2 : list (action T)) :
  Forall quiet tr1 -> failed tr2 -> failed (tr1 ++ tr2).
Proof.
  intros Hq (pre & n & got & e & -> & Hpre).
  exists (tr1 ++ pre), n, got, e. split; [by rewrite app_assoc|].
  by apply Forall_app.
Qed.

Lemma ok_bind {A B} (m : M P T A) (f : A -> M P T B) :
  fails_on_read_error_only m ->
  (forall a, fails_on_read_error_only (f a)) ->
  fails_on_read_error_only (bind m f).
Proof.
  intros Hm Hf p. unfold bind. specialize (Hm p).
  destruct (m p) as [[[a| | |msg] p1] tr1]; try done.
  specialize (Hf a p1). destruct (f a p1) as [[r p2] tr2].
  destruct r; first [by apply Forall_app | by apply failed_app].
Qed.

Lemma ok_ret {A} (a : A) : fails_on_read_error_only (ret (P:=P) (T:=T) a).
Proof. intros p. by apply Forall_nil. Qed.

Lemma ok_continue {A} : fails_on_read_error_only (continue_ (P:=P) (T:=T) (A:=A)).
Proof. intros p. by apply Forall_nil. Qed.

Lemma ok_index (buf : list byte) i : fails_on_read_error_only (index (P:=P) (T:=T) buf i).
Proof. intros p. unfold index. destruct (buf !! i); by apply Forall_nil. Qed.

Lemma ok_slice_from (buf : list byte) lo :
  fails_on_read_error_only (slice_from (P:=P) (T:=T) buf lo).
Proof. intros p. unfold slice_from. destruct (lo <=? _)%nat; by apply Forall_nil. Qed.

Lemma ok_port_Flush : fails_on_read_error_only (port_Flush (P:=P) (T:=T)).
Proof.
  intros p. unfold port_Flush. destruct (Flush p) as [err p'].
  by repeat constructor.
Qed.

(** The pattern of every read in the package: on an error, send it and
    return; else go on with the buffer. *)
Lemma ok_read {A} (buf : list byte) (k : list byte -> M P T A) :
  (forall b, fails_on_read_error_only (k b)) ->
  fails_on_read_error_only
    (bind (port_Read buf) (fun '(b, err) =>
       if err is Some e then bind (errors_send e) (fun _ => return_) else k b)).
Proof.
  intros Hk p. unfold bind, port_Read.
  destruct (Read p (length buf)) as [[got [e|]] p1].
  - exists [], (length buf), got, e. by split.
  - specialize (Hk (store got buf) p1).
    destruct (k (store got buf) p1) as [[r p2] tr].
    destruct r; try by (apply Forall_cons; split).
    by apply (failed_app [_]); [repeat constructor|].
Qed.

Lemma ok_forever (body : M P T unit) (fuel : nat) (p : P) :
  fails_on_read_error_only body ->
  let '(r, _, tr) := forever body fuel p in
  match r with Returned => failed tr | _ => Forall quiet tr end.
Proof.
  intros Hbody. revert p. induction fuel as [|fuel IH]; intros p; [by apply Forall_nil|].
  rewrite forever_S. specialize (Hbody p).
  destruct (body p) as [[[[]| | |msg] p1] tr1]; try done.
  - specialize (IH p1). destruct (forever body fuel p1) as [[r p2] tr2].
    destruct r; first [by apply Forall_app | by apply failed_app].
  - specialize (IH p1). destruct (forever body fuel p1) as [[r p2] tr2].
    destruct r; first [by apply Forall_app | by apply failed_app].
Qed.
End ReadErrors.

Lemma ok_per_target_body {P} `{Port P} :
  fails_on_read_error_only (PerTarget.read_body (P:=P)).
Proof.
  unfold PerTarget.read_body.
  assert (Hloop : forall n buf, fails_on_read_error_only (PerTarget.targets_loop (P:=P) n buf)).
  { intros n buf p. rewrite per_target_loop.
    assert (Forall quiet (target_sends (PerTarget.records n buf)))
      by (by apply Forall_fmap, Forall_true).
    by destruct (decide _). }
  repeat first
    [ apply ok_read; intros ?
    | apply ok_bind; [|intros ?]
    | apply ok_index | apply ok_slice_from | apply ok_continue | apply ok_ret
    | apply ok_port_Flush | apply Hloop
    | match goal with |- fails_on_read_error_only (if ?c then _ else _) => destruct c end ].
Qed.

Lemma ok_frame_level_body {P} `{Port P} :
  fails_on_read_error_only (FrameLevel.read_body (P:=P)).
Proof.
  unfold FrameLevel.read_body, FrameLevel.decode_payload.
  assert (Hloop : forall n buf, fails_on_read_error_only (FrameLevel.targets_loop (P:=P) n buf)).
  { intros n buf p. rewrite frame_level_loop.
    assert (Forall quiet (target_sends (FrameLevel.records n buf)))
      by (by apply Forall_fmap, Forall_true).
    by destruct (decide _). }
  repeat first
    [ apply ok_read; intros ?
    | apply ok_bind; [|intros ?]
    | apply ok_index | apply ok_slice_from | apply ok_continue | apply ok_ret
    | apply Hloop
    | match goal with |- fails_on_read_error_only (if ?c then _ else _) => destruct c end ].
Qed.

Lemma failed_read_last {T} (r : ending) (tr : list (action T)) :
  match r with Returned => failed tr | _ => Forall quiet tr end ->
  (forall i n got e,
     tr !! i = Some (Call (CRead n got (Some e))) ->
     r = Returned /\ drop (S i) tr = [Send (SendError e)]) /\
  (r = Returned ->
   exists i n got e, tr !! i = Some (Call (CRead n got (Some e)))).
Proof.
  intros Hr. split.
  - intros i n got e Hi.
    assert (Hnq : ~ Forall quiet tr).
    { intros Hq. by apply (Forall_lookup_1 _ _ _ _ Hq Hi). }
    destruct r; try done.
    destruct Hr as (pre & n' & got' & e' & -> & Hpre). split; [done|].
    destruct (decide (i < length pre)%nat) as [Hlt|Hge].
    { rewrite lookup_app_l in Hi by done.
      by destruct (Forall_lookup_1 _ _ _ _ Hpre Hi). }
    rewrite lookup_app_r in Hi by lia.
    destruct (i - length pre)%nat as [|[|j]] eqn:Ej; simplify_eq/=.
    replace i with (length pre) by lia.
    rewrite drop_app_ge by lia.
    by replace (S (length pre) - length pre)%nat with 1%nat by lia.
  - intros ->. destruct Hr as (pre & n & got & e & -> & _).
    exists (length pre), n, got, e. by rewrite lookup_app_r, Nat.sub_diag by lia.
Qed.



(** The same holds of the loop of [src/unnamed/part_000]. *)
Lemma frame_level_returns_on_read_error_only {P : Type} `{Port P} (fuel : nat) (p : P) :
  let '(r, _, tr) := FrameLevel.read fuel p in
  (forall i n got e,
     tr !! i = Some (Call (CRead n got (Some e))) ->
     r = Returned /\ drop (S i) tr = [Send (SendError e)]) /\
  (r = Returned ->
   exists i n got e, tr !! i = Some (Call (CRead n got (Some e)))).
Proof.
  pose proof (ok_forever FrameLevel.read_body fuel p ok_frame_level_body) as Hr.
  unfold FrameLevel.read. destruct (forever _ _ _) as [[r p'] tr].
  by apply failed_read_last.
Qed.

(** ** [ReadTarget] after the error *)

Lemma sends_quiet {T} (tr : list (action T)) (e : error) :
  Forall quiet tr -> SendError e ∉ sends tr.
Proof.
  intros Hq Hin. unfold sends in Hin.
  apply list_elem_of_omap in Hin as (a & Ha & Ea).
  rewrite Forall_forall in Hq. specialize (Hq a Ha).
  by destruct a as [c|ev]; simplify_eq/=.
Qed.

Lemma error_last {T} (l1 pre post : list (event T)) (e e' : error) :
  (forall e0, SendError e0 ∉ l1) ->
  l1 ++ [SendError e] = pre ++ SendError e' :: post -> post = [].
Proof.
  intros Hno E.
  destruct (decide (length pre < length l1)%nat) as [Hlt|Hge].
  - assert (Hl : (l1 ++ [SendError e]) !! length pre = Some (SendError e')).
    { rewrite E. by rewrite lookup_app_r, Nat.sub_diag by lia. }
    rewrite lookup_app_l in Hl by done.
    destruct (Hno e'). by eapply list_elem_of_lookup_2.
  - apply (f_equal length) in E. rewrite !length_app in E. simpl in E.
    destruct post; [done | simpl in E; lia].
Qed.

Lemma Open_error_ends_reader {P} `{Port P} (cfg : Config) (fuel : nat) (p : P) :
  error_ends_reader (Open cfg fuel p).
Proof.
  unfold Open.
  pose proof (ok_forever PerTarget.read_body fuel p ok_per_target_body) as Hr.
  unfold PerTarget.read. destruct (forever _ _ _) as [[r p'] tr].
  intros pre e post E. cbn [reader reader_end] in *.
  destruct r.
  - destruct Hr as (pre' & n & got & e' & -> & Hpre).
    rewrite sends_app in E. cbn in E. split; [|done].
    eapply error_last; [|exact E]. intros e0. by apply sends_quiet.
  - destruct (sends_quiet tr e Hr). rewrite E. set_solver.
  - destruct (sends_quiet tr e Hr). rewrite E. set_solver.
Qed.

Section AfterTheError.
Context {T : Type} (zero : T).

Lemma reader_step_keeps (l l' : LD2451 T) :
  reader_step l l' -> error_ends_reader l -> error_ends_reader l'.
Proof.
  intros [c q t todo r Hroom] Hl pre e post E. cbn in *.
  apply (Hl (SendTarget t :: pre) e post). cbn. by rewrite E.
Qed.

Lemma ReadTarget_keeps (l l' : LD2451 T) res :
  ReadTarget zero l res l' -> error_ends_reader l -> error_ends_reader l'.
Proof.
  induction 1 as [c t q todo r|c t todo r|c q e todo r|l l' res l'' Hstep _ IH];
    intros Hl.
  - done.
  - intros pre e post E. cbn in *.
    apply (Hl (SendTarget t :: pre) e post). cbn. by rewrite E.
  - intros pre e' post E. cbn in *.
    destruct (Hl [] e todo eq_refl) as [-> _]. by destruct pre.
  - by eapply IH, reader_step_keeps.
Qed.

Lemma later_keeps (l l' : LD2451 T) :
  later zero l l' -> error_ends_reader l -> error_ends_reader l'.
Proof.
  induction 1 as [|l l1 l2 [res Hcall] _ IH]; [done|].
  intros Hl. by eapply IH, ReadTarget_keeps.
Qed.

(** The call that returns the error leaves a goroutine that has returned
    and has nothing more to send. *)
Lemma ReadTarget_error_ends (l l' : LD2451 T) t e :
  ReadTarget zero l (t, Some e) l' -> error_ends_reader l ->
  reader l' = [] /\ reader_end l' = Returned.
Proof.
  remember (t, Some e) as res eqn:Eres.
  induction 1 as [c t' q todo r|c t' todo r|c q e' todo r|l l' res l'' Hstep _ IH];
    intros Hl; simplify_eq/=.
  - destruct (Hl [] e todo eq_refl) as [-> Hr]. by split.
  - by eapply IH, reader_step_keeps.
Qed.

(** Once the goroutine has nothing to send, a call can only return a
    target out of the buffer. *)
Lemma ReadTarget_drains (l l' : LD2451 T) res :
  ReadTarget zero l res l' -> reader l = [] ->
  res.2 = None /\ targets l = res.1 :: targets l' /\
  reader l' = [] /\ reader_end l' = reader_end l.
Proof.
  intros [c t q todo r|c t todo r|c q e todo r|l0 l0' res0 l0'' Hstep _] E;
    simplify_eq/=; try done.
  by destruct Hstep.
Qed.

Lemma later_drained (l l' : LD2451 T) :
  later zero l l' -> reader l = [] ->
  reader l' = [] /\ reader_end l' = reader_end l.
Proof.
  induction 1 as [|l l1 l2 [res Hcall] _ IH]; [done|].
  intros E. destruct (ReadTarget_drains _ _ _ Hcall E) as (_ & _ & E1 & R1).
  destruct (IH E1) as [E2 R2]. split; [done | congruence].
Qed.
End AfterTheError.

(** C4, as stated, fails on [src/LD2451.go]: on a port that times out at
    once the first call of [ReadTarget] returns the error; after it no
    call can return that error again, or anything: the goroutine has
    returned and the channels stay silent. *)
Lemma same_error_again_counterexample :
  let l := Open some_config 1 (stream []) in
  let l1 := mkLD2451 some_config [] [] Returned in
  ReadTarget PerTarget.zero l (PerTarget.zero, Some EOF) l1 /\
  ~ (exists t l2, ReadTarget PerTarget.zero l1 (t, Some EOF) l2) /\
  blocks_forever PerTarget.zero l1.
Proof.
  split; [apply ReadTarget_error|].
  assert (Hnone : forall res l2,
            ~ ReadTarget PerTarget.zero (mkLD2451 some_config [] [] Returned) res l2).
  { intros res l2 Hcall. by destruct (ReadTarget_drains _ _ _ _ Hcall eq_refl) as (_ & ? & _). }
  split; [|by split].
  intros (t & l2 & Hcall). by apply Hnone in Hcall.
Qed.

(** C4, amended: once [ReadTarget] has returned the error, the goroutine
    has returned and sends nothing more.  Every later call returns a
    target that was still in the buffer of [targets], never an error, and
    when the buffer is empty it blocks forever. *)
Theorem error_delivered_once {P : Type} `{Port P} (cfg : Config) (fuel : nat) (p : P)
    (l l1 l2 : LD2451 PerTarget.Target) (t : PerTarget.Target) (e : error) :
  later PerTarget.zero (Open cfg fuel p) l ->
  ReadTarget PerTarget.zero l (t, Some e) l1 ->
  later PerTarget.zero l1 l2 ->
  reader l2 = [] /\ reader_end l2 = Returned /\
  (forall res l3,
     ReadTarget PerTarget.zero l2 res l3 ->
     res.2 = None /\ targets l2 = res.1 :: targets l3) /\
  (targets l2 = [] -> blocks_forever PerTarget.zero l2).
Proof.
  intros Hl Hcall Hl2.
  pose proof (later_keeps _ _ _ Hl (Open_error_ends_reader cfg fuel p)) as Hinv.
  destruct (ReadTarget_error_ends _ _ _ _ _ Hcall Hinv) as [E1 R1].
  destruct (later_drained _ _ _ Hl2 E1) as [E2 R2]. rewrite R1 in R2.
  split; [done|]. split; [done|]. split.
  - intros res l3 Hcall3.
    by destruct (ReadTarget_drains _ _ _ _ Hcall3 E2) as (? & ? & _).
  - intros Hempty. split; [done|]. intros res l3 Hcall3.
    destruct (ReadTarget_drains _ _ _ _ Hcall3 E2) as (_ & Ht & _).
    by rewrite Hempty in Ht.
Qed.

(** A port that times out at once: after the error the buffer is empty,
    and the next call blocks forever. *)
Lemma error_delivered_once_witness :
  let l1 := mkLD2451 some_config [] [] Returned in
  reader l1 = [] /\ reader_end l1 = Returned /\
  (forall res l3,
     ReadTarget PerTarget.zero l1 res l3 ->
     res.2 = None /\ targets l1 = res.1 :: targets l3) /\
  (targets l1 = [] -> blocks_forever PerTarget.zero l1).
Proof.
  exact (error_delivered_once some_config 1 (stream [])
           (Open some_config 1 (stream []))
           (mkLD2451 some_config [] [] Returned)
           (mkLD2451 some_config [] [] Returned) PerTarget.zero EOF
           (rtc_refl _ _)
           (ReadTarget_error PerTarget.zero some_config [] EOF [] Returned)
           (rtc_refl _ _)).
Defined.

(** ** [sendCommand] *)

Section PortSteps.
Context {P T A : Type} `{Port P}.

Lemma bind_port_Read (buf got : list byte) (err : option error) (p p' : P)
    (f : list byte * option error -> M P T A) :
  Read p (length buf) = (got, err, p') ->
  bind (port_Read buf) f p =
  (let '(r, p'', tr) := f (store got buf, err) p' in
   (r, p'', Call (CRead (length buf) got err) :: tr)).
Proof.
  intros E. unfold bind, port_Read. rewrite E.
  by destruct (f _ _) as [[r p''] tr].
Qed.

Lemma bind_port_Write (data : list byte) (n : nat) (err : option error) (p p' : P)
    (f : unit -> M P T A) :
  Write p data = (n, err, p') ->
  bind (port_Write data) f p =
  (let '(r, p'', tr) := f tt p' in (r, p'', Call (CWrite data err) :: tr)).
Proof.
  intros E. unfold bind, port_Write. rewrite E.
  by destruct (f _ _) as [[r p''] tr].
Qed.
End PortSteps.

(** One call on any port: name what it returned and go on. *)
Ltac write_step :=
  lazymatch goal with
  | |- context [bind (port_Write ?d) ?f ?p] =>
      let n := fresh "n" in let w := fresh "w" in
      let q := fresh "q" in let E := fresh "E" in
      destruct (Write p d) as [[n w] q] eqn:E;
      rewrite (bind_port_Write d n w p q f E); cbv beta iota
  end.

Ltac read_step k :=
  lazymatch goal with
  | |- context [bind (port_Read (make k)) ?f ?p] =>
      let got := fresh "got" in let err := fresh "err" in
      let q := fresh "q" in let E := fresh "E" in
      let buf := fresh "buf" in let Hbuf := fresh "Hbuf" in
      destruct (Read p (length (make k))) as [[got err] q] eqn:E;
      rewrite (bind_port_Read (make k) got err p q f E); clear E;
      pose proof (length_store got (make k)) as Hbuf;
      change (length (make k)) with k in *;
      destruct err as [?e|]; cbv beta iota;
      [rewrite bind_errors_send_return | ]
  end.

Lemma neqb_false (a b : byte) : neqb a b = false -> a = b.
Proof. unfold neqb. rewrite negb_false_iff. apply Byte.byte_dec_bl. Qed.

Lemma ack_checks (endFrame status : list byte) :
  negb (bytes_Equal endFrame [x04; x03; x02; x01]) ||
  negb (bytes_Equal status [x00; x00]) = false ->
  endFrame = [x04; x03; x02; x01] /\ status = [x00; x00].
Proof. by rewrite orb_false_iff, !negb_false_iff, !bytes_Equal_true. Qed.

(** The test of the marker byte, lines 183 and 213. *)
Ltac ack_start :=
  lazymatch goal with
  | Hbuf : length (store ?got (make 1)) = 1%nat |- _ =>
      let b := fresh "b" in let Eb := fresh "Eb" in let Ek := fresh "Ek" in
      destruct (store got (make 1)) as [|b [|? ?]] eqn:Eb; try done; clear Hbuf;
      rewrite (bind_index [b] 0 b) by done;
      destruct (neqb b xfd) eqn:Ek;
      [rewrite bind_errors_send_return; apply neqb_true in Ek
      |apply neqb_false in Ek; subst b]
  end.

(** The slices and the test of an acknowledgement of [k] bytes, lines
    194-198 and 224-228. *)
Ltac ack_block k trim :=
  lazymatch goal with
  | Hbuf : length (store ?got (make k)) = k |- _ =>
      let Ek := fresh "Ek" in
      rewrite bind_slice_from by (rewrite Hbuf; lia);
      rewrite bind_slice_to by (rewrite length_drop, Hbuf; lia);
      rewrite bind_slice_from by (rewrite Hbuf; lia);
      rewrite length_drop, Hbuf;
      change (k - 7 - trim)%nat with 2%nat;
      destruct (negb _ || negb _) eqn:Ek;
      [rewrite bind_errors_send_return | apply ack_checks in Ek as [? ?]]
  end.

(** All the ways through [sendCommand], on any port. *)
Ltac command_cases :=
  unfold FrameLevel.sendCommand;
  write_step; read_step 1%nat;
  [|ack_start;
    [|read_step 17%nat;
      [|ack_block 17%nat 8%nat;
        [|write_step; read_step 1%nat;
          [|ack_start; [|read_step 13%nat; [|ack_block 13%nat 4%nat]]]]]]];
  cbv beta iota.

Ltac at_position :=
  let i := fresh "i" in
  intros i; intros;
  destruct i as [|[|[|[|[|[|[|i]]]]]]]; simplify_eq/=; try done.

(** C5, as stated, fails on [src/unnamed/part_000]: on a port whose
    writes fail while the acknowledgements still come in, both writes
    fail, no error is sent, and every step of the transaction runs. *)
Lemma write_failure_counterexample :
  FrameLevel.sendCommand [] (Chunked [enter_ack ++ exit_ack] [] (Some write_failed)) =
  (Next tt, Chunked [[]] [] (Some write_failed),
   [Call (CWrite enter_config (Some write_failed));
    Call (CRead 1 [xfd] None); Call (CRead 17 (drop 1 enter_ack) None);
    Call (CWrite exit_config (Some write_failed));
    Call (CRead 1 [xfd] None); Call (CRead 13 (drop 1 exit_ack) None)]).
Proof. reflexivity. Qed.

(** When the write fails and no acknowledgement comes, the error that is
    sent is the time-out of the read that follows, not the failure of the
    write. *)
Example write_failure_then_timeout :
  FrameLevel.sendCommand [] (Chunked [] [] (Some write_failed)) =
  (Return, Chunked [] [] (Some write_failed),
   [Call (CWrite enter_config (Some write_failed));
    Call (CRead 1 [] (Some EOF)); Send (SendError EOF)]).
Proof. reflexivity. Qed.

(** With the acknowledgements of the sensor and a port that writes, the
    transaction runs its six steps, sends nothing and both requests are
    on the wire. *)
Example command_accepted :
  FrameLevel.sendCommand [] (stream (enter_ack ++ exit_ack)) =
  (Next tt, Chunked [[]] [enter_config; exit_config] None,
   [Call (CWrite enter_config None);
    Call (CRead 1 [xfd] None); Call (CRead 17 (drop 1 enter_ack) None);
    Call (CWrite exit_config None);
    Call (CRead 1 [xfd] None); Call (CRead 13 (drop 1 exit_ack) None)]).
Proof. reflexivity. Qed.

(** C5, amended: in the two-step transaction every read failure, every
    marker byte other than 0xFD, every status other than 00 00 and every
    terminator other than 04 03 02 01 sends exactly one error (the error
    of the port for a failed read, "failed to send command to the LD2451"
    otherwise) and nothing of the transaction follows it; the function
    returns early only in this way.  The result of a write is not looked
    at: after each write, failed or not, the marker byte is read. *)
Theorem command_failures_abort {P : Type} `{Port P} (command : list byte) (p : P) :
  let '(r, _, tr) := FrameLevel.sendCommand command p in
  (forall i n got e,
     tr !! i = Some (Call (CRead n got (Some e))) ->
     r = Return /\ drop (S i) tr = [Send (SendError e)]) /\
  (forall i got,
     tr !! i = Some (Call (CRead 1 got None)) ->
     store got (make 1) <> [xfd] ->
     r = Return /\ drop (S i) tr = [Send (SendError FrameLevel.failed_to_send)]) /\
  (forall i n got,
     tr !! i = Some (Call (CRead n got None)) -> n <> 1%nat ->
     take 2 (drop 7 (store got (make n))) <> [x00; x00] \/
     drop (n - 4) (store got (make n)) <> [x04; x03; x02; x01] ->
     r = Return /\ drop (S i) tr = [Send (SendError FrameLevel.failed_to_send)]) /\
  (forall i e,
     tr !! i = Some (Send (SendError e)) -> r = Return /\ length tr = S i) /\
  (r = Return -> exists e, last tr = Some (Send (SendError e))) /\
  (forall i data w,
     tr !! i = Some (Call (CWrite data w)) ->
     exists got err, tr !! S i = Some (Call (CRead 1 got err))).
Proof.
  command_cases.
  all: (split; [|split; [|split; [|split; [|split]]]]);
    [at_position | at_position | at_position | at_position | | at_position];
    eauto.
  all: try (match goal with Hm : _ \/ _ |- _ => destruct Hm; congruence end).
  all: done.
Qed.

(** C9: the argument of [sendCommand] has no part in what it does: with
    any two arguments it ends the same way, leaves the port the same and
    makes the same calls and sends; what it writes is the first of the two
    fixed request frames, or both. *)
Theorem command_argument_unused {P : Type} `{Port P} (c1 c2 : list byte) (p : P) :
  FrameLevel.sendCommand c1 p = FrameLevel.sendCommand c2 p /\
  (let '(_, _, tr) := FrameLevel.sendCommand c1 p in
   writes tr = [enter_config] \/ writes tr = [enter_config; exit_config]).
Proof.
  split; [reflexivity|].
  command_cases; first [by left | by right].
Qed.

(** A frame of one target for [src/unnamed/part_000], with 0xFF put in
    the first byte of its record. *)
Lemma record_byte_0_unread_witness :
  let run (bs : list byte) :=
    FrameLevel.read_body
      (Chunked ((xf4 :: xf3 :: xf2 :: xf1 :: x08 :: x00 :: bs ++ [xf8; xf7; xf6; xf5]) :: [])
         [] None) in
  let '(r1, p1, tr1) :=
    run (<[(2 + 6 * 0)%nat := xff]> [x01; x00; x00; x90; x0a; x01; x14; x1e]) in
  let '(r2, p2, tr2) := run [x01; x00; x00; x90; x0a; x01; x14; x1e] in
  r1 = r2 /\ p1 = p2 /\ sends tr1 = sends tr2.
Proof.
  refine (record_byte_0_unread x08 x00 xff 0 [x01; x00; x00; x90; x0a; x01; x14; x1e]
            [xf8; xf7; xf6; xf5] [] [] None eq_refl _).
  discriminate.
Defined.

(** * More properties of the package *)

(** ** Bytes as numbers *)

Lemma int_range (b : byte) : 0 <= int b <= 255.
Proof. unfold int. pose proof (Byte.to_N_bounded b). lia. Qed.

Lemma int_inj (a b : byte) : int a = int b -> a = b.
Proof.
  unfold int. intros E. apply N2Z.inj in E.
  pose proof (Byte.of_to_N a) as Ha. rewrite E, Byte.of_to_N in Ha. congruence.
Qed.

Lemma lor_shiftl_8 (h a : Z) : 0 <= a < 256 -> Z.lor (Z.shiftl h 8) a = h * 256 + a.
Proof.
  intros Ha. rewrite Z.shiftl_mul_pow2 by lia. change (2 ^ 8) with 256.
  rewrite <- Z.lxor_lor, <- Z.add_nocarry_lxor; try done.
  all: apply Z.bits_inj'; intros n Hn; rewrite Z.land_spec, Z.bits_0.
  all: destruct (Z.lt_ge_cases n 8) as [Hlt|Hge].
  all: try (replace (h * 256) with (Z.shiftl h 8) by (rewrite Z.shiftl_mul_pow2 by lia; done);
            rewrite Z.shiftl_spec_low by done; done).
  all: rewrite (Z.bits_above_log2 a n), andb_false_r; try done; try lia.
  all: destruct (Z.eq_dec a 0) as [->|]; [simpl; lia|];
       apply Z.log2_lt_pow2; try lia;
       apply Z.lt_le_trans with (2 ^ 8); [simpl; lia | apply Z.pow_le_mono_r; lia].
Qed.

(** X1: the length field is read as an unsigned 16-bit number, low byte
    first: it is [buf[0] + 256 * buf[1]], lies between 0 and 65535, and is
    0 only when both bytes are 0. *)
Theorem frameLength_little_endian (b1 b0 : byte) :
  frameLength_of b1 b0 = int b0 + 256 * int b1 /\
  0 <= frameLength_of b1 b0 <= 65535 /\
  (frameLength_of b1 b0 = 0 <-> b0 = x00 /\ b1 = x00).
Proof.
  pose proof (int_range b0). pose proof (int_range b1).
  assert (E : frameLength_of b1 b0 = int b0 + 256 * int b1)
    by (unfold frameLength_of; rewrite lor_shiftl_8 by lia; lia).
  rewrite E. split; [done|]. split; [lia|]. split.
  - intros E0. split; apply int_inj; change (int x00) with 0; lia.
  - intros [-> ->]. done.
Qed.

(** X15: the name of the direction a record byte gives is "Away" for the
    byte 0 only, "Toward" for the byte 1 only, and "Unknown" for every
    other byte. *)
Theorem direction_names (b : byte) :
  (Direction_String (int b) = "Away"%string <-> b = x00) /\
  (Direction_String (int b) = "Toward"%string <-> b = x01) /\
  (Direction_String (int b) = "Unknown"%string <-> b <> x00 /\ b <> x01).
Proof.
  unfold Direction_String, DirectionAway, DirectionToward.
  destruct (int b =? 0) eqn:E0; [|destruct (int b =? 1) eqn:E1].
  - apply Z.eqb_eq in E0. assert (b = x00) as -> by (by apply int_inj).
    repeat split; try done. by intros [? _].
  - apply Z.eqb_eq in E1. assert (b = x01) as -> by (by apply int_inj).
    repeat split; try done. by intros [_ ?].
  - apply Z.eqb_neq in E0, E1. repeat split; try done.
    + by intros ->.
    + by intros ->.
    + by intros ->.
    + by intros ->.
Qed.

(** ** Noise in front of a header *)

(** X2: bytes other than 0xF4 are dropped one per turn, with one read of
    one byte each and nothing sent; behind them the run goes on as the
    run on the rest of the stream, in both revisions. *)
Theorem noise_skipped (fuel : nat) (noise rest : list byte)
    (more txd : list (list byte)) (fault : option error) :
  Forall (fun b => b <> xf4) noise ->
  PerTarget.read (length noise + fuel) (Chunked ((noise ++ rest) :: more) txd fault) =
    (let '(r, p, tr) := PerTarget.read fuel (Chunked (rest :: more) txd fault) in
     (r, p, full_reads ((fun b => [b]) <$> noise) ++ tr)) /\
  FrameLevel.read (length noise + fuel) (Chunked ((noise ++ rest) :: more) txd fault) =
    (let '(r, p, tr) := FrameLevel.read fuel (Chunked (rest :: more) txd fault) in
     (r, p, full_reads ((fun b => [b]) <$> noise) ++ tr)).
Proof.
  induction 1 as [|b noise Hb _ [IHp IHf]].
  - unfold PerTarget.read, FrameLevel.read.
    change ((@nil byte ++ rest)) with rest. change (length (@nil byte) + fuel)%nat with fuel.
    split; by destruct (forever _ _ _) as [[r p] tr].
  - apply neqb_true in Hb.
    assert (Hp : PerTarget.read_body (Chunked ((b :: noise ++ rest) :: more) txd fault) =
                 (Continue, Chunked ((noise ++ rest) :: more) txd fault, full_reads [[b]])).
    { unfold PerTarget.read_body. read_block [b]. index_ok. by rewrite Hb. }
    assert (Hf : FrameLevel.read_body (Chunked ((b :: noise ++ rest) :: more) txd fault) =
                 (Continue, Chunked ((noise ++ rest) :: more) txd fault, full_reads [[b]])).
    { unfold FrameLevel.read_body. read_block [b]. do 2 index_ok. by rewrite Hb. }
    change ((b :: noise) ++ rest) with (b :: noise ++ rest).
    change (length (b :: noise) + fuel)%nat with (S (length noise + fuel)).
    unfold PerTarget.read, FrameLevel.read in *.
    rewrite !forever_S, Hp, Hf, IHp, IHf. clear IHp IHf Hp Hf.
    split; destruct (forever _ _ _) as [[r p] tr]; reflexivity.
Qed.

(** Three bytes of noise in front of the frame of the scenario. *)
Lemma noise_skipped_witness :
  PerTarget.read (3 + 2) (stream ([x00; xf8; x41] ++ scenario)) =
  (let '(r, p, tr) := PerTarget.read 2 (stream scenario) in
   (r, p, full_reads [[x00]; [xf8]; [x41]] ++ tr)).
Proof.
  refine (proj1 (noise_skipped 2 [x00; xf8; x41] scenario [] [] None _)).
  repeat constructor; discriminate.
Defined.

(** ** The fields of the targets *)

Section Always.
Context {P T : Type} `{Port P} (Q : action T -> Prop).

Lemma always_bind {A B} (m : M P T A) (f : A -> M P T B) :
  always Q m -> (forall a, always Q (f a)) -> always Q (bind m f).
Proof.
  intros Hm Hf p. unfold bind. specialize (Hm p).
  destruct (m p) as [[[a| | |msg] p1] tr1]; try done.
  specialize (Hf a p1). destruct (f a p1) as [[r p2] tr2].
  by apply Forall_app.
Qed.

Lemma always_ret {A} (a : A) : always Q (ret (P:=P) a).
Proof. intros p. apply Forall_nil_2. Qed.

Lemma always_continue {A} : always Q (continue_ (P:=P) (A:=A)).
Proof. intros p. apply Forall_nil_2. Qed.

Lemma always_return {A} : always Q (return_ (P:=P) (A:=A)).
Proof. intros p. apply Forall_nil_2. Qed.

Lemma always_index (buf : list byte) i : always Q (index (P:=P) buf i).
Proof. intros p. unfold index. destruct (buf !! i); apply Forall_nil_2. Qed.

Lemma always_slice_from (buf : list byte) lo : always Q (slice_from (P:=P) buf lo).
Proof. intros p. unfold slice_from. destruct (lo <=? _)%nat; apply Forall_nil_2. Qed.

Lemma always_errors_send (e : error) :
  Q (Send (SendError e)) -> always Q (errors_send (P:=P) e).
Proof. intros HQ p. by apply Forall_singleton. Qed.

Lemma always_port_Read (n : nat) :
  (forall got err, Q (Call (CRead n got err))) -> always Q (port_Read (P:=P) (make n)).
Proof.
  intros HQ p. unfold port_Read. rewrite length_make.
  destruct (Read p n) as [[got err] p']. by apply Forall_singleton.
Qed.

Lemma always_port_Flush :
  (forall err, Q (Call (CFlush err))) -> always Q (port_Flush (P:=P)).
Proof.
  intros HQ p. unfold port_Flush. destruct (Flush p) as [err p'].
  by apply Forall_singleton.
Qed.

Lemma always_forever (body : M P T unit) (fuel : nat) (p : P) :
  always Q body -> Forall Q (forever body fuel p).2.
Proof.
  intros Hbody. revert p. induction fuel as [|fuel IH]; intros p; [apply Forall_nil_2|].
  rewrite forever_S. specialize (Hbody p).
  destruct (body p) as [[[[]| | |msg] p1] tr1]; try done.
  all: specialize (IH p1); destruct (forever body fuel p1) as [[r p2] tr2].
  all: by apply Forall_app.
Qed.
End Always.

(** The statements of a body, one after the other; [calls] shows [Q] of
    the reads, flushes and sends of errors met on the way. *)
Ltac always_steps calls :=
  repeat first
    [ apply always_bind; [|intros ?]
    | apply always_port_Read; intros ? ?; calls
    | apply always_port_Flush; intros ?; calls
    | apply always_errors_send; calls
    | apply always_index | apply always_slice_from
    | apply always_continue | apply always_return | apply always_ret
    | done
    | match goal with
      | |- always _ (match ?x with _ => _ end) => destruct x eqn:?
      end ].

Lemma per_target_record_in_range (b0 b1 b2 b3 b4 b5 : byte) :
  per_target_in_range (PerTarget.record_target b0 b1 b2 b3 b4 b5).
Proof.
  pose proof (int_range b1). pose proof (int_range b2). pose proof (int_range b3).
  pose proof (int_range b4). pose proof (int_range b5).
  unfold per_target_in_range. cbn. lia.
Qed.

Lemma frame_level_record_in_range (b1 b2 b3 b4 b5 : byte) :
  frame_level_in_range (FrameLevel.record_target b1 b2 b3 b4 b5).
Proof.
  pose proof (int_range b1). pose proof (int_range b2). pose proof (int_range b3).
  pose proof (int_range b4). pose proof (int_range b5).
  unfold frame_level_in_range. cbn. lia.
Qed.

Lemma per_target_records_in_range (n : nat) (buf : list byte) :
  Forall per_target_in_range (PerTarget.records n buf).
Proof.
  revert buf. induction n as [|n IH]; intros buf; [apply Forall_nil_2|].
  destruct buf as [|b0 [|b1 [|b2 [|b3 [|b4 [|b5 rest]]]]]]; try apply Forall_nil_2.
  apply Forall_cons. split; [apply per_target_record_in_range | apply IH].
Qed.

Lemma frame_level_records_in_range (n : nat) (buf : list byte) :
  Forall frame_level_in_range (FrameLevel.records n buf).
Proof.
  revert buf. induction n as [|n IH]; intros buf; [apply Forall_nil_2|].
  destruct buf as [|b0 [|b1 [|b2 [|b3 [|b4 [|b5 rest]]]]]]; try apply Forall_nil_2.
  apply Forall_cons. split; [apply frame_level_record_in_range | apply IH].
Qed.

Lemma always_per_target_body {P} `{Port P} :
  always (sends_only per_target_in_range) (PerTarget.read_body (P:=P)).
Proof.
  assert (Hloop : forall n buf,
            always (sends_only per_target_in_range) (PerTarget.targets_loop (P:=P) n buf)).
  { intros n buf p. rewrite per_target_loop. cbn [snd].
    apply Forall_fmap. eapply Forall_impl; [apply per_target_records_in_range | done]. }
  unfold PerTarget.read_body. always_steps ltac:(done).
Qed.

Lemma always_frame_level_body {P} `{Port P} :
  always (sends_only frame_level_in_range) (FrameLevel.read_body (P:=P)).
Proof.
  assert (Hloop : forall n buf,
            always (sends_only frame_level_in_range) (FrameLevel.targets_loop (P:=P) n buf)).
  { intros n buf p. rewrite frame_level_loop. cbn [snd].
    apply Forall_fmap. eapply Forall_impl; [apply frame_level_records_in_range | done]. }
  unfold FrameLevel.read_body, FrameLevel.decode_payload. always_steps ltac:(done).
Qed.

(** X4: whatever the port delivers, every target [read] sends has its
    angle between -128 and 127 and its distance, direction, speed and SNR
    between 0 and 255, in both revisions. *)
Theorem sent_targets_in_range {P : Type} `{Port P} (fuel : nat) (p : P) :
  (forall t, Send (SendTarget t) ∈ (PerTarget.read fuel p).2 -> per_target_in_range t) /\
  (forall t, Send (SendTarget t) ∈ (FrameLevel.read fuel p).2 -> frame_level_in_range t).
Proof.
  split; intros t Hin.
  - pose proof (always_forever (sends_only per_target_in_range)
                  PerTarget.read_body fuel p always_per_target_body) as Hall.
    rewrite Forall_forall in Hall. exact (Hall _ Hin).
  - pose proof (always_forever (sends_only frame_level_in_range)
                  FrameLevel.read_body fuel p always_frame_level_body) as Hall.
    rewrite Forall_forall in Hall. exact (Hall _ Hin).
Qed.

(** ** Where the fields of a target come from *)

Lemma sends_target_sends {T} (ts : list T) :
  sends (target_sends ts) = SendTarget <$> ts.
Proof. induction ts as [|t ts IH]; [done|]. cbn. by f_equal. Qed.

Lemma per_target_records_lookup (n i : nat) (buf : list byte) (t : PerTarget.Target) :
  PerTarget.records n buf !! i = Some t <->
  (i < n)%nat /\
  exists b0 b1 b2 b3 b4 b5,
    buf !! (6 * i)%nat = Some b0 /\ buf !! (6 * i + 1)%nat = Some b1 /\
    buf !! (6 * i + 2)%nat = Some b2 /\ buf !! (6 * i + 3)%nat = Some b3 /\
    buf !! (6 * i + 4)%nat = Some b4 /\ buf !! (6 * i + 5)%nat = Some b5 /\
    t = PerTarget.record_target b0 b1 b2 b3 b4 b5.
Proof.
  revert i buf. induction n as [|n IH]; intros i buf.
  { split; [done | intros [? _]; lia]. }
  destruct buf as [|c0 [|c1 [|c2 [|c3 [|c4 [|c5 rest]]]]]].
  1-6: split; [done|];
       intros (_ & b0 & b1 & b2 & b3 & b4 & b5 & H0 & H1 & H2 & H3 & H4 & H5 & _);
       destruct i as [|i];
       [ cbn in *; discriminate
       | replace (6 * S i)%nat with (6 + 6 * i)%nat in * by lia; cbn in *; discriminate ].
  destruct i as [|i].
  - cbn. split.
    + intros [= <-]. split; [lia|]. by exists c0, c1, c2, c3, c4, c5.
    + intros (_ & b0 & b1 & b2 & b3 & b4 & b5 & H0 & H1 & H2 & H3 & H4 & H5 & ->).
      by simplify_eq.
  - change (PerTarget.records (S n) (c0 :: c1 :: c2 :: c3 :: c4 :: c5 :: rest) !! S i)
      with (PerTarget.records n rest !! i).
    rewrite IH. replace (6 * S i)%nat with (6 + 6 * i)%nat by lia.
    change ((c0 :: c1 :: c2 :: c3 :: c4 :: c5 :: rest) !! (6 + 6 * i)%nat)
      with (rest !! (6 * i)%nat).
    change ((c0 :: c1 :: c2 :: c3 :: c4 :: c5 :: rest) !! (6 + 6 * i + 1)%nat)
      with (rest !! (6 * i + 1)%nat).
    change ((c0 :: c1 :: c2 :: c3 :: c4 :: c5 :: rest) !! (6 + 6 * i + 2)%nat)
      with (rest !! (6 * i + 2)%nat).
    change ((c0 :: c1 :: c2 :: c3 :: c4 :: c5 :: rest) !! (6 + 6 * i + 3)%nat)
      with (rest !! (6 * i + 3)%nat).
    change ((c0 :: c1 :: c2 :: c3 :: c4 :: c5 :: rest) !! (6 + 6 * i + 4)%nat)
      with (rest !! (6 * i + 4)%nat).
    change ((c0 :: c1 :: c2 :: c3 :: c4 :: c5 :: rest) !! (6 + 6 * i + 5)%nat)
      with (rest !! (6 * i + 5)%nat).
    split; intros [Hi Hrest]; (split; [lia | exact Hrest]).
Qed.

Lemma frame_level_records_lookup (n i : nat) (buf : list byte) (t : FrameLevel.Target) :
  FrameLevel.records n buf !! i = Some t <->
  (i < n)%nat /\
  exists b1 b2 b3 b4 b5,
    buf !! (6 * i + 1)%nat = Some b1 /\
    buf !! (6 * i + 2)%nat = Some b2 /\ buf !! (6 * i + 3)%nat = Some b3 /\
    buf !! (6 * i + 4)%nat = Some b4 /\ buf !! (6 * i + 5)%nat = Some b5 /\
    t = FrameLevel.record_target b1 b2 b3 b4 b5.
Proof.
  revert i buf. induction n as [|n IH]; intros i buf.
  { split; [done | intros [? _]; lia]. }
  destruct buf as [|c0 [|c1 [|c2 [|c3 [|c4 [|c5 rest]]]]]].
  1-6: split; [done|];
       intros (_ & b1 & b2 & b3 & b4 & b5 & H1 & H2 & H3 & H4 & H5 & _);
       destruct i as [|i];
       [ cbn in *; discriminate
       | replace (6 * S i)%nat with (6 + 6 * i)%nat in * by lia; cbn in *; discriminate ].
  destruct i as [|i].
  - cbn. split.
    + intros [= <-]. split; [lia|]. by exists c1, c2, c3, c4, c5.
    + intros (_ & b1 & b2 & b3 & b4 & b5 & H1 & H2 & H3 & H4 & H5 & ->).
      by simplify_eq.
  - change (FrameLevel.records (S n) (c0 :: c1 :: c2 :: c3 :: c4 :: c5 :: rest) !! S i)
      with (FrameLevel.records n rest !! i).
    rewrite IH. replace (6 * S i)%nat with (6 + 6 * i)%nat by lia.
    change ((c0 :: c1 :: c2 :: c3 :: c4 :: c5 :: rest) !! (6 + 6 * i + 1)%nat)
      with (rest !! (6 * i + 1)%nat).
    change ((c0 :: c1 :: c2 :: c3 :: c4 :: c5 :: rest) !! (6 + 6 * i + 2)%nat)
      with (rest !! (6 * i + 2)%nat).
    change ((c0 :: c1 :: c2 :: c3 :: c4 :: c5 :: rest) !! (6 + 6 * i + 3)%nat)
      with (rest !! (6 * i + 3)%nat).
    change ((c0 :: c1 :: c2 :: c3 :: c4 :: c5 :: rest) !! (6 + 6 * i + 4)%nat)
      with (rest !! (6 * i + 4)%nat).
    change ((c0 :: c1 :: c2 :: c3 :: c4 :: c5 :: rest) !! (6 + 6 * i + 5)%nat)
      with (rest !! (6 * i + 5)%nat).
    split; intros [Hi Hrest]; (split; [lia | exact Hrest]).
Qed.

(** X5: the [i]-th value the record loop sends is the target of the six
    bytes at 6i..6i+5 of the record block, provided [i] is below the count
    and all six are there: in [src/LD2451.go] alarm, angle (minus 0x80),
    distance, direction, speed and SNR from bytes 0..5 of the record; in
    [src/unnamed/part_000] the same five fields from bytes 1..5, with no
    alarm.  Nothing else is sent by the loop. *)
Theorem record_layout {P : Type} `{Port P} (p : P) (n i : nat) (buf : list byte) :
  (forall t,
     sends (PerTarget.targets_loop n buf p).2 !! i = Some (SendTarget t) <->
     (i < n)%nat /\
     exists b0 b1 b2 b3 b4 b5,
       buf !! (6 * i)%nat = Some b0 /\ buf !! (6 * i + 1)%nat = Some b1 /\
       buf !! (6 * i + 2)%nat = Some b2 /\ buf !! (6 * i + 3)%nat = Some b3 /\
       buf !! (6 * i + 4)%nat = Some b4 /\ buf !! (6 * i + 5)%nat = Some b5 /\
       t = PerTarget.mkTarget (int b0 =? 1) (int b1 - 128) (int b2) (int b3)
                              (int b4) (int b5)) /\
  (forall t,
     sends (FrameLevel.targets_loop n buf p).2 !! i = Some (SendTarget t) <->
     (i < n)%nat /\
     exists b1 b2 b3 b4 b5,
       buf !! (6 * i + 1)%nat = Some b1 /\
       buf !! (6 * i + 2)%nat = Some b2 /\ buf !! (6 * i + 3)%nat = Some b3 /\
       buf !! (6 * i + 4)%nat = Some b4 /\ buf !! (6 * i + 5)%nat = Some b5 /\
       t = FrameLevel.mkTarget (int b1 - 128) (int b2) (int b3) (int b4) (int b5)) /\
  (forall e, SendError e ∉ sends (PerTarget.targets_loop n buf p).2) /\
  (forall e, SendError e ∉ sends (FrameLevel.targets_loop n buf p).2).
Proof.
  rewrite per_target_loop, frame_level_loop. cbn [snd].
  rewrite !sends_target_sends.
  split; [|split; [|split]].
  - intros t. rewrite <- per_target_records_lookup, list_lookup_fmap.
    destruct (PerTarget.records n buf !! i); cbn; split; congruence.
  - intros t. rewrite <- frame_level_records_lookup, list_lookup_fmap.
    destruct (FrameLevel.records n buf !! i); cbn; split; congruence.
  - intros e Hin. apply list_elem_of_fmap in Hin as (t & Ht & _). discriminate.
  - intros e Hin. apply list_elem_of_fmap in Hin as (t & Ht & _). discriminate.
Qed.

(** ** Every turn consumes input *)

Lemma held_rx_read (n : nat) (bursts : list (list byte)) :
  (length (concat (rx_read n bursts).2) + length (rx_read n bursts).1.1
   = length (concat bursts))%nat /\
  ((rx_read n bursts).1.2 = None -> (0 < n)%nat -> (0 < length (rx_read n bursts).1.1)%nat).
Proof.
  induction bursts as [|c more IH]; [done|].
  destruct c as [|b c]; [exact IH|].
  cbn [rx_read fst snd]. split.
  - change (concat (drop n (b :: c) :: more)) with (drop n (b :: c) ++ concat more).
    change (concat ((b :: c) :: more)) with ((b :: c) ++ concat more).
    rewrite !length_app, length_take, length_drop. lia.
  - intros _ Hn. rewrite length_take. cbn [length]. lia.
Qed.

Lemma held_Read (p : chunked) (n : nat) :
  (held (Read p n).2 + length (Read p n).1.1 = held p)%nat /\
  ((Read p n).1.2 = None -> (0 < n)%nat -> (0 < length (Read p n).1.1)%nat).
Proof.
  pose proof (held_rx_read n (rx p)) as Hrx.
  unfold held. cbn [Read chunked_port].
  by destruct (rx_read n (rx p)) as [[got err] bursts].
Qed.

Section NeverGrows.
Context {T : Type}.

Lemma never_grows_bind {A B} (m : M chunked T A) (f : A -> M chunked T B) :
  never_grows m -> (forall a, never_grows (f a)) -> never_grows (bind m f).
Proof.
  intros Hm Hf p. unfold bind. specialize (Hm p).
  destruct (m p) as [[[a| | |msg] p1] tr1]; try done.
  specialize (Hf a p1). destruct (f a p1) as [[r p2] tr2].
  cbn in *. lia.
Qed.

Lemma never_grows_ret {A} (a : A) : never_grows (T:=T) (ret a).
Proof. by intros p. Qed.

Lemma never_grows_continue {A} : never_grows (T:=T) (continue_ (A:=A)).
Proof. by intros p. Qed.

Lemma never_grows_return {A} : never_grows (T:=T) (return_ (A:=A)).
Proof. by intros p. Qed.

Lemma never_grows_index (buf : list byte) i : never_grows (T:=T) (index buf i).
Proof. intros p. unfold index. by destruct (buf !! i). Qed.

Lemma never_grows_slice_from (buf : list byte) lo : never_grows (T:=T) (slice_from buf lo).
Proof. intros p. unfold slice_from. by destruct (lo <=? _)%nat. Qed.

Lemma never_grows_errors_send (e : error) : never_grows (T:=T) (errors_send e).
Proof. by intros p. Qed.

Lemma never_grows_port_Read (buf : list byte) : never_grows (T:=T) (port_Read buf).
Proof.
  intros p. unfold port_Read. pose proof (held_Read p (length buf)) as [Hp _].
  destruct (Read p (length buf)) as [[got err] p']. cbn in *. lia.
Qed.

Lemma never_grows_port_Flush : never_grows (T:=T) port_Flush.
Proof.
  intros [bursts txd fault]. unfold port_Flush, held. cbn.
  destruct bursts as [|c more]; [done|]. cbn. rewrite length_app. lia.
Qed.

(** A turn that starts with a read of one byte, returns when that read
    fails, and otherwise goes on without putting bytes back, has read at
    least one byte when it ends with the loop going on. *)
Lemma first_read_progress (f : list byte * option error -> M chunked T unit) :
  (forall buf e p, (f (buf, Some e) p).1.1 = Return) ->
  (forall buf, never_grows (f (buf, None))) ->
  forall p,
    match (bind (port_Read (make 1)) f p).1.1 with
    | Next _ | Continue => (held (bind (port_Read (make 1)) f p).1.2 < held p)%nat
    | _ => True
    end.
Proof.
  intros Herr Hok p.
  pose proof (held_Read p (length (make 1))) as [Hp Hgot].
  destruct (Read p (length (make 1))) as [[got err] p'] eqn:E.
  rewrite (bind_port_Read _ _ _ _ _ _ E).
  destruct err as [e|].
  - specialize (Herr (store got (make 1)) e p').
    destruct (f _ p') as [[r p2] tr]. cbn in *. by subst r.
  - specialize (Hok (store got (make 1)) p').
    specialize (Hgot eq_refl). rewrite length_make in Hgot. specialize (Hgot ltac:(lia)).
    destruct (f _ p') as [[r p2] tr]. cbn in *.
    destruct r; try done; lia.
Qed.

Lemma forever_stops (body : M chunked T unit) :
  (forall p, match (body p).1.1 with
             | Next _ | Continue => (held (body p).1.2 < held p)%nat
             | _ => True
             end) ->
  forall fuel p, (held p < fuel)%nat -> (forever body fuel p).1.1 <> Running.
Proof.
  intros Hbody fuel. induction fuel as [|fuel IH]; intros p Hp; [lia|].
  rewrite forever_S. specialize (Hbody p).
  destruct (body p) as [[[[]| | |msg] p1] tr1]; cbn in Hbody; try done.
  all: specialize (IH p1 ltac:(lia)).
  all: by destruct (forever body fuel p1) as [[r p2] tr2].
Qed.
End NeverGrows.

Lemma forever_more {P T} `{Port P} (body : M P T unit) (fuel k : nat) (p : P) :
  (forever body fuel p).1.1 <> Running -> forever body (fuel + k) p = forever body fuel p.
Proof.
  revert p. induction fuel as [|fuel IH]; intros p Hend; [done|].
  change (S fuel + k)%nat with (S (fuel + k)). rewrite !forever_S in *.
  destruct (body p) as [[[[]| | |msg] p1] tr1]; try done.
  all: rewrite IH; [done|].
  all: by destruct (forever body fuel p1) as [[r p2] tr2].
Qed.

(** The statements of a body, one after the other. *)
Ltac never_grows_steps :=
  repeat first
    [ apply never_grows_bind; [|intros ?]
    | apply never_grows_port_Read | apply never_grows_port_Flush
    | apply never_grows_errors_send
    | apply never_grows_index | apply never_grows_slice_from
    | apply never_grows_continue | apply never_grows_return | apply never_grows_ret
    | done
    | match goal with
      | |- never_grows (match ?x with _ => _ end) => destruct x
      end ].

Lemma per_target_turn_consumes (p : chunked) :
  match (PerTarget.read_body p).1.1 with
  | Next _ | Continue => (held (PerTarget.read_body p).1.2 < held p)%nat
  | _ => True
  end.
Proof.
  assert (Hloop : forall n buf, never_grows (PerTarget.targets_loop (P:=chunked) n buf)).
  { intros n buf q. by rewrite per_target_loop. }
  unfold PerTarget.read_body. apply first_read_progress.
  - intros buf e q. reflexivity.
  - intros buf. never_grows_steps.
Qed.

Lemma frame_level_turn_consumes (p : chunked) :
  match (FrameLevel.read_body p).1.1 with
  | Next _ | Continue => (held (FrameLevel.read_body p).1.2 < held p)%nat
  | _ => True
  end.
Proof.
  assert (Hloop : forall n buf, never_grows (FrameLevel.targets_loop (P:=chunked) n buf)).
  { intros n buf q. by rewrite frame_level_loop. }
  unfold FrameLevel.read_body, FrameLevel.decode_payload. apply first_read_progress.
  - intros buf e q. reflexivity.
  - intros buf. never_grows_steps.
Qed.

(** As many calls of [ReadTarget] as the goroutine has sends take them
    all, one each. *)
Lemma sends_can_be_taken {T} (zero : T) (c : Config) (evs : list (event T)) (r : ending) :
  exists ress,
    ReadTargets zero (mkLD2451 c [] evs r) ress (mkLD2451 c [] [] r) /\
    length ress = length evs.
Proof.
  induction evs as [|ev evs (ress & Hcalls & Hlen)].
  - exists []. split; [apply ReadTargets_none | done].
  - destruct ev as [t|e].
    + exists ((t, None) :: ress). split; [|by cbn; rewrite Hlen].
      eapply ReadTargets_call; [apply ReadTarget_handed | exact Hcalls].
    + exists ((zero, Some e) :: ress). split; [|by cbn; rewrite Hlen].
      eapply ReadTargets_call; [apply ReadTarget_error | exact Hcalls].
Qed.

(** With no call of [ReadTarget], an error the goroutine has to send is
    never sent. *)
Lemma error_waits_for_receiver {T} (l l' : LD2451 T) (e : error) :
  rtc reader_step l l' -> SendError e ∈ reader l -> SendError e ∈ reader l'.
Proof.
  induction 1 as [l|l l1 l2 Hstep _ IH]; [done|].
  intros Hin. apply IH. destruct Hstep as [c q t todo r Hroom]. cbn in *.
  apply elem_of_cons in Hin as [Hin|Hin]; [discriminate | done].
Qed.

(** X3: on a port that has finitely many bytes to deliver and then times
    out, the loop of [read] makes at most as many turns as there are bytes,
    plus one, before it returns or panics: every turn that lets the loop
    go on has taken at least one byte from the port, and more turns change
    nothing.  [read] waits in each of its sends until the value is taken,
    so this is when it ends provided its sends are received: after [Open],
    as many calls of [ReadTarget] as [read] has sends take them all and
    leave the goroutine at its end with nothing buffered; with no call of
    [ReadTarget], a goroutine that is to return never gets there, its
    error is never taken. *)
Theorem read_ends_when_received (fuel : nat) (p : chunked) :
  (held p < fuel)%nat ->
  ((PerTarget.read fuel p).1.1 <> Running /\
   forall k, PerTarget.read (fuel + k) p = PerTarget.read fuel p) /\
  ((FrameLevel.read fuel p).1.1 <> Running /\
   forall k, FrameLevel.read (fuel + k) p = FrameLevel.read fuel p) /\
  (forall cfg, exists ress,
     ReadTargets PerTarget.zero (Open cfg fuel p) ress
       (mkLD2451 cfg [] [] (PerTarget.read fuel p).1.1) /\
     length ress = length (sends (PerTarget.read fuel p).2)) /\
  ((PerTarget.read fuel p).1.1 = Returned ->
   forall cfg l, rtc reader_step (Open cfg fuel p) l -> reader l <> []).
Proof.
  intros Hfuel. split; [|split; [|split]].
  - pose proof (forever_stops _ per_target_turn_consumes fuel p Hfuel) as Hend.
    split; [exact Hend|]. intros k. by apply forever_more.
  - pose proof (forever_stops _ frame_level_turn_consumes fuel p Hfuel) as Hend.
    split; [exact Hend|]. intros k. by apply forever_more.
  - intros cfg. unfold Open.
    destruct (PerTarget.read fuel p) as [[r q] tr]. cbn [fst snd].
    apply sends_can_be_taken.
  - intros Hret cfg l Hsteps.
    pose proof (ok_forever PerTarget.read_body fuel p ok_per_target_body) as Hr.
    unfold Open in Hsteps. unfold PerTarget.read in *.
    destruct (forever _ _ _) as [[r q] tr]. cbn [fst snd] in *. subst r.
    destruct Hr as (pre & n & got & e & -> & _).
    assert (Hin : SendError e ∈ reader l).
    { apply (error_waits_for_receiver _ _ _ Hsteps). cbn [reader].
      rewrite sends_app. apply elem_of_app. right. cbn. by apply list_elem_of_singleton. }
    intros Hnil. rewrite Hnil in Hin. by apply elem_of_nil in Hin.
Qed.

Lemma read_ends_when_received_witness :
  (held (stream scenario) < 18)%nat /\
  (PerTarget.read 18 (stream scenario)).1.1 <> Running /\
  (FrameLevel.read 18 (stream scenario)).1.1 <> Running /\
  (forall l, rtc reader_step (Open some_config 18 (stream scenario)) l -> reader l <> []).
Proof.
  assert (Hheld : (held (stream scenario) < 18)%nat) by (vm_compute; lia).
  pose proof (read_ends_when_received 18 (stream scenario) Hheld)
    as [[Hp _] [[Hf _] [_ Hwait]]].
  exact (conj Hheld (conj Hp (conj Hf (Hwait eq_refl some_config)))).
Defined.

(** ** Frames one after the other *)

Lemma per_target_one_frame (fuel : nat) (f : frame) (more txd : list (list byte))
    (fault : option error) :
  per_target_frame_ok f ->
  PerTarget.read (S fuel) (Chunked (frame_bytes f :: more) txd fault) =
  (let '(r, p, tr) := PerTarget.read fuel (Chunked more txd fault) in
   (r, p, per_target_frame_trace f ++ tr)).
Proof.
  destruct f as [l0 l1 payload footer].
  unfold per_target_frame_ok, per_target_frame_trace, frame_bytes, f_count.
  cbn [f_len0 f_len1 f_payload f_footer].
  intros (Hlen & Hne & Hfit). destruct payload as [|nt recs]; [cbn in Hne; lia|].
  change (drop 1 (nt :: recs)) with recs in *.
  unfold PerTarget.read. rewrite forever_S.
  rewrite (per_target_frame l0 l1 (nt :: recs)) by done.
  rewrite (bind_index _ 0 nt), bind_slice_from by (cbn; done || lia).
  change (drop 1 (nt :: recs)) with recs.
  rewrite bind_per_target_loop by done.
  cbn [port_Flush Flush chunked_port rx tx tx_fault tail].
  destruct (forever _ _ _) as [[r p] tr].
  by rewrite <- !app_assoc.
Qed.

Lemma frame_level_one_frame (fuel : nat) (f : frame) (rest : list byte)
    (more txd : list (list byte)) (fault : option error) :
  frame_level_frame_ok f ->
  FrameLevel.read (S fuel) (Chunked ((frame_bytes f ++ rest) :: more) txd fault) =
  (let '(r, p, tr) := FrameLevel.read fuel (Chunked (rest :: more) txd fault) in
   (r, p, frame_level_frame_trace f ++ tr)).
Proof.
  destruct f as [l0 l1 payload footer].
  unfold frame_level_frame_ok, frame_level_frame_trace, frame_bytes, f_count.
  cbn [f_len0 f_len1 f_payload f_footer].
  intros (Hlen & Hne & Hfit & Hfoot).
  destruct payload as [|nt [|alarm recs]]; [cbn in Hne; lia | cbn in Hne; lia |].
  destruct footer as [|f0 [|f1 [|f2 [|f3 [|]]]]]; try done.
  change (drop 2 (nt :: alarm :: recs)) with recs in *.
  change ((xf4 :: xf3 :: xf2 :: xf1 :: l0 :: l1 ::
           (nt :: alarm :: recs) ++ [f0; f1; f2; f3]) ++ rest)
    with (xf4 :: xf3 :: xf2 :: xf1 :: l0 :: l1 ::
          ((nt :: alarm :: recs) ++ [f0; f1; f2; f3]) ++ rest).
  rewrite <- (app_assoc (nt :: alarm :: recs)).
  unfold FrameLevel.read. rewrite forever_S.
  rewrite (frame_level_frame l0 l1 (nt :: alarm :: recs)) by done.
  rewrite bind_frame_level_decode by done.
  read_block [f0; f1; f2; f3]. unfold ret.
  destruct (forever _ _ _) as [[r p] tr].
  by rewrite <- !app_assoc.
Qed.

(** X6: [src/unnamed/part_000] decodes well-formed frames that follow each
    other without a gap, in one burst: one turn per frame, the targets of
    each frame in wire order, and the run goes on right behind the last
    footer. *)
Theorem frame_level_frames_in_order (fuel : nat) (fs : list frame) (rest : list byte)
    (more txd : list (list byte)) (fault : option error) :
  Forall frame_level_frame_ok fs ->
  FrameLevel.read (length fs + fuel)
    (Chunked ((concat (frame_bytes <$> fs) ++ rest) :: more) txd fault) =
  (let '(r, p, tr) := FrameLevel.read fuel (Chunked (rest :: more) txd fault) in
   (r, p, concat (frame_level_frame_trace <$> fs) ++ tr)).
Proof.
  induction 1 as [|f fs Hf Hfs IH].
  - cbn. by destruct (FrameLevel.read _ _) as [[r p] tr].
  - change (length (f :: fs) + fuel)%nat with (S (length fs + fuel)).
    change (concat (frame_bytes <$> f :: fs))
      with (frame_bytes f ++ concat (frame_bytes <$> fs)).
    change (concat (frame_level_frame_trace <$> f :: fs))
      with (frame_level_frame_trace f ++ concat (frame_level_frame_trace <$> fs)).
    rewrite <- app_assoc, frame_level_one_frame, IH by done.
    destruct (FrameLevel.read fuel _) as [[r p] tr].
    by rewrite <- app_assoc.
Qed.

Lemma frame_level_frames_in_order_witness :
  Forall frame_level_frame_ok [two_record_frame; two_record_frame] /\
  sends (FrameLevel.read 3
           (stream (frame_bytes two_record_frame ++ frame_bytes two_record_frame))).2 =
  [SendTarget (FrameLevel.mkTarget 16 10 1 20 30);
   SendTarget (FrameLevel.mkTarget (-16) 32 0 5 9);
   SendTarget (FrameLevel.mkTarget 16 10 1 20 30);
   SendTarget (FrameLevel.mkTarget (-16) 32 0 5 9);
   SendError EOF].
Proof.
  assert (Hok : Forall frame_level_frame_ok [two_record_frame; two_record_frame]).
  { repeat constructor; vm_compute; lia. }
  split; [exact Hok|].
  pose proof (frame_level_frames_in_order 1 [two_record_frame; two_record_frame]
                [] [] [] None Hok) as Hrun.
  change (stream (frame_bytes two_record_frame ++ frame_bytes two_record_frame))
    with (Chunked [concat (frame_bytes <$> [two_record_frame; two_record_frame]) ++ []]
            [] None).
  change 3%nat with (length [two_record_frame; two_record_frame] + 1)%nat.
  rewrite Hrun. reflexivity.
Defined.

(** X7: [src/LD2451.go] decodes well-formed frames that arrive one per
    burst: one turn per frame, the targets of each frame in wire order, a
    flush after each, which drops the footer, and the run goes on with
    the burst after the last frame. *)
Theorem per_target_frames_in_order (fuel : nat) (fs : list frame)
    (more txd : list (list byte)) (fault : option error) :
  Forall per_target_frame_ok fs ->
  PerTarget.read (length fs + fuel)
    (Chunked ((frame_bytes <$> fs) ++ more) txd fault) =
  (let '(r, p, tr) := PerTarget.read fuel (Chunked more txd fault) in
   (r, p, concat (per_target_frame_trace <$> fs) ++ tr)).
Proof.
  induction 1 as [|f fs Hf Hfs IH].
  - cbn. by destruct (PerTarget.read _ _) as [[r p] tr].
  - change (length (f :: fs) + fuel)%nat with (S (length fs + fuel)).
    change ((frame_bytes <$> f :: fs) ++ more)
      with (frame_bytes f :: ((frame_bytes <$> fs) ++ more)).
    change (concat (per_target_frame_trace <$> f :: fs))
      with (per_target_frame_trace f ++ concat (per_target_frame_trace <$> fs)).
    rewrite per_target_one_frame, IH by done.
    destruct (PerTarget.read fuel _) as [[r p] tr].
    by rewrite <- app_assoc.
Qed.

Lemma per_target_frames_in_order_witness :
  Forall per_target_frame_ok [scenario_frame; scenario_frame] /\
  sends (PerTarget.read 3
           (Chunked [frame_bytes scenario_frame; frame_bytes scenario_frame] [] None)).2 =
  [SendTarget (PerTarget.mkTarget false 16 10 1 20 30);
   SendTarget (PerTarget.mkTarget false 16 10 1 20 30);
   SendError EOF].
Proof.
  assert (Hok : Forall per_target_frame_ok [scenario_frame; scenario_frame]).
  { repeat constructor; vm_compute; lia. }
  split; [exact Hok|].
  pose proof (per_target_frames_in_order 1 [scenario_frame; scenario_frame]
                [] [] None Hok) as Hrun.
  change (Chunked [frame_bytes scenario_frame; frame_bytes scenario_frame] [] None)
    with (Chunked ((frame_bytes <$> [scenario_frame; scenario_frame]) ++ []) [] None).
  change 3%nat with (length [scenario_frame; scenario_frame] + 1)%nat.
  rewrite Hrun. reflexivity.
Defined.

(** ** What the consumer gets *)

Lemma reader_step_undelivered {T} (l l' : LD2451 T) :
  reader_step l l' -> undelivered l = undelivered l'.
Proof.
  intros [c q t todo r Hroom]. unfold undelivered. cbn. by rewrite <- app_assoc.
Qed.

Lemma ReadTarget_undelivered {T} (zero : T) (l l' : LD2451 T) res :
  ReadTarget zero l res l' -> undelivered l = delivered [res] ++ undelivered l'.
Proof.
  induction 1 as [c t q todo r|c t todo r|c q e todo r|l l' res l'' Hstep Hcall IH];
    try done.
  by rewrite (reader_step_undelivered _ _ Hstep).
Qed.

Lemma ReadTargets_undelivered {T} (zero : T) (l l' : LD2451 T) ress :
  ReadTargets zero l ress l' -> undelivered l = delivered ress ++ undelivered l'.
Proof.
  induction 1 as [l|l res l' ress l'' Hcall Hcalls IH]; [done|].
  rewrite (ReadTarget_undelivered _ _ _ _ Hcall), IH.
  rewrite app_assoc. f_equal. by destruct res as [t [e|]].
Qed.

Lemma targets_of_in_range {T} (R : T -> Prop) (tr : list (action T)) :
  Forall (sends_only R) tr -> Forall R (targets_of (sends tr)).
Proof.
  intros Hall. rewrite Forall_forall in Hall. apply Forall_forall. intros t Ht.
  apply list_elem_of_omap in Ht as (ev & Hev & Et).
  apply list_elem_of_omap in Hev as (a & Ha & Ea).
  specialize (Hall a Ha). destruct a as [c|ev']; [done|].
  destruct ev' as [t'|e]; simplify_eq/=. done.
Qed.

(** X8: the targets the calls of [ReadTarget] return, followed by those
    still in the channel and those [read] has yet to send, are the targets
    [read] decodes, in the order it decodes them: none is lost, repeated
    or reordered on the way through the channel, whatever the buffer size
    and whenever the errors are taken.  Every target returned has its
    fields in the ranges of a byte. *)
Theorem delivered_targets_are_decoded {P : Type} `{Port P} (cfg : Config) (fuel : nat)
    (p : P) (ress : list (PerTarget.Target * option error))
    (l' : LD2451 PerTarget.Target) :
  ReadTargets PerTarget.zero (Open cfg fuel p) ress l' ->
  targets_of (sends (PerTarget.read fuel p).2) = delivered ress ++ undelivered l' /\
  Forall per_target_in_range (delivered ress).
Proof.
  intros Hcalls. apply ReadTargets_undelivered in Hcalls.
  assert (Hall : Forall per_target_in_range (targets_of (sends (PerTarget.read fuel p).2))).
  { apply targets_of_in_range.
    apply (always_forever (sends_only per_target_in_range)), always_per_target_body. }
  assert (Hopen : undelivered (Open cfg fuel p) =
                  targets_of (sends (PerTarget.read fuel p).2)).
  { unfold Open. by destruct (PerTarget.read fuel p) as [[r q] tr]. }
  rewrite <- Hopen, Hcalls. split; [done|].
  rewrite <- Hopen, Hcalls in Hall. by apply Forall_app in Hall as [? _].
Qed.

Lemma delivered_targets_are_decoded_witness :
  ReadTargets PerTarget.zero (Open some_config 2 (stream scenario))
    [(PerTarget.mkTarget false 16 10 1 20 30, None); (PerTarget.zero, Some EOF)]
    (mkLD2451 some_config [] [] Returned) /\
  targets_of (sends (PerTarget.read 2 (stream scenario)).2) =
  [PerTarget.mkTarget false 16 10 1 20 30].
Proof.
  assert (Hcalls : ReadTargets PerTarget.zero (Open some_config 2 (stream scenario))
            [(PerTarget.mkTarget false 16 10 1 20 30, None); (PerTarget.zero, Some EOF)]
            (mkLD2451 some_config [] [] Returned)).
  { change (Open some_config 2 (stream scenario))
      with (mkLD2451 some_config []
              [SendTarget (PerTarget.mkTarget false 16 10 1 20 30); SendError EOF] Returned).
    eapply ReadTargets_call; [apply ReadTarget_handed|].
    eapply ReadTargets_call; [apply ReadTarget_error|].
    apply ReadTargets_none. }
  split; [exact Hcalls|].
  exact (proj1 (delivered_targets_are_decoded some_config 2 (stream scenario) _ _ Hcalls)).
Defined.

Lemma reader_step_bounded {T} (l l' : LD2451 T) :
  reader_step l l' ->
  config l' = config l /\ (length (targets l') <= TargetBufferSize (config l'))%nat.
Proof.
  intros [c q t todo r Hroom]. cbn. rewrite length_app. cbn. split; [done | lia].
Qed.

Lemma ReadTarget_bounded {T} (zero : T) (l l' : LD2451 T) res :
  ReadTarget zero l res l' ->
  (length (targets l) <= TargetBufferSize (config l))%nat ->
  config l' = config l /\ (length (targets l') <= TargetBufferSize (config l'))%nat.
Proof.
  induction 1 as [c t q todo r|c t todo r|c q e todo r|l l' res l'' Hstep Hcall IH];
    cbn; intros Hb; try (split; [done | lia]).
  apply reader_step_bounded in Hstep as [Ec Hb'].
  destruct (IH Hb') as [Ec' Hb'']. split; [congruence | done].
Qed.

(** X9: however the goroutine and the calls of [ReadTarget] interleave
    after [Open], the targets channel never holds more than
    [config.TargetBufferSize] targets, and the configuration stays the one
    given to [Open]: with the buffer full the goroutine waits in its send
    until a call takes a target. *)
Theorem targets_buffer_bounded {P : Type} `{Port P} (cfg : Config) (fuel : nat) (p : P)
    (l : LD2451 PerTarget.Target) :
  moves PerTarget.zero (Open cfg fuel p) l ->
  config l = cfg /\ (length (targets l) <= TargetBufferSize cfg)%nat.
Proof.
  intros Hmoves.
  assert (Hstart : config (Open cfg fuel p) = cfg /\
                   (length (targets (Open cfg fuel p)) <= TargetBufferSize cfg)%nat).
  { unfold Open. destruct (PerTarget.read fuel p) as [[r q] tr]. cbn. split; [done | lia]. }
  induction Hmoves as [l|l l' l'' Hmove Hmoves IH]; [done|].
  apply IH. destruct Hstart as [Ec Hb]. rewrite <- Ec in Hb.
  destruct Hmove as [Hstep|[res Hcall]].
  - apply reader_step_bounded in Hstep as [Ec' Hb']. split; congruence.
  - apply ReadTarget_bounded in Hcall as [Ec' Hb']; [|done]. split; congruence.
Qed.

Lemma targets_buffer_bounded_witness :
  moves PerTarget.zero (Open some_config 2 (stream scenario))
    (mkLD2451 some_config [PerTarget.mkTarget false 16 10 1 20 30] [SendError EOF] Returned) /\
  Nat.le (length [PerTarget.mkTarget false 16 10 1 20 30]) (TargetBufferSize some_config).
Proof.
  assert (Hmoves : moves PerTarget.zero (Open some_config 2 (stream scenario))
            (mkLD2451 some_config [PerTarget.mkTarget false 16 10 1 20 30]
               [SendError EOF] Returned)).
  { apply rtc_once. left.
    change (Open some_config 2 (stream scenario))
      with (mkLD2451 some_config []
              [SendTarget (PerTarget.mkTarget false 16 10 1 20 30); SendError EOF] Returned).
    apply (reader_buffers some_config [] _ _ Returned). cbn. lia. }
  split; [exact Hmoves|].
  exact (proj2 (targets_buffer_bounded some_config 2 (stream scenario) _ Hmoves)).
Defined.

(** ** The acknowledgements of [sendCommand] *)

Lemma store_short (got : list byte) (n i : nat) :
  (length got <= i < n)%nat -> store got (make n) !! i = Some x00.
Proof.
  intros [Hlo Hhi]. unfold store. rewrite length_make, take_ge by lia.
  rewrite lookup_app_r, lookup_drop by done.
  apply lookup_replicate_2. lia.
Qed.

(** A read that came back short cannot have passed the test behind it. *)
Ltac short_read_absurd :=
  match goal with
  | Hlt : (length ?got < 1)%nat, Hs : store ?got (make 1) = _ |- _ =>
      let Hz := fresh "Hz" in
      assert (Hz : store got (make 1) !! 0%nat = Some x00) by (apply store_short; lia);
      rewrite Hs in Hz; discriminate
  | Hlt : (length ?got < ?n)%nat, Hd : drop ?k (store ?got (make ?n)) = _ |- _ =>
      let Hz := fresh "Hz" in
      assert (Hz : store got (make n) !! (k + 3)%nat = Some x00)
        by (apply store_short; cbn; lia);
      rewrite <- lookup_drop, Hd in Hz; discriminate
  end.

(** X10: [sendCommand] ends in one of two ways, never in a panic: it goes
    through, exactly when it wrote the two requests, each followed by a read
    of the marker 0xFD and a read of the rest of the acknowledgement (17
    and 13 bytes) with 00 00 at offset 7 and 04 03 02 01 at the end, all
    four reads without error, and then it has sent nothing; or it returns
    early.  The other bytes of the acknowledgements are not looked at. *)
Theorem command_goes_through {P : Type} `{Port P} (command : list byte) (p : P) :
  let '(r, _, tr) := FrameLevel.sendCommand command p in
  (r = Next tt \/ r = Return) /\
  (r = Next tt <->
   exists w1 a1 b1 w2 a2 b2,
     tr = [Call (CWrite enter_config w1);
           Call (CRead 1 a1 None); Call (CRead 17 b1 None);
           Call (CWrite exit_config w2);
           Call (CRead 1 a2 None); Call (CRead 13 b2 None)] /\
     store a1 (make 1) = [xfd] /\
     take 2 (drop 7 (store b1 (make 17))) = [x00; x00] /\
     drop 13 (store b1 (make 17)) = [x04; x03; x02; x01] /\
     store a2 (make 1) = [xfd] /\
     take 2 (drop 7 (store b2 (make 13))) = [x00; x00] /\
     drop 9 (store b2 (make 13)) = [x04; x03; x02; x01]).
Proof.
  command_cases.
  all: split; [first [by left | by right]|].
  all: split;
    [ intros Hr; try discriminate
    | intros (w1 & a1 & b1 & w2 & a2 & b2 & Htr & Ha1 & Hs1 & Ht1 & Ha2 & Hs2 & Ht2);
      try discriminate; simplify_eq ].
  all: try done.
  by exists w, got, got0, w0, got1, got2.
Qed.

(** X11: a read of [sendCommand] that delivers fewer bytes than asked for
    is never taken for an acknowledgement: the transaction ends there with
    one error sent, the port's if the read reported one and "failed to send
    command to the LD2451" if it did not, since the marker or the last byte
    of the terminator is then the zero the buffer was made with. *)
Theorem short_ack_rejected {P : Type} `{Port P} (command : list byte) (p : P) :
  let '(r, _, tr) := FrameLevel.sendCommand command p in
  forall i n got err,
    tr !! i = Some (Call (CRead n got err)) -> (length got < n)%nat ->
    r = Return /\
    exists e, drop (S i) tr = [Send (SendError e)] /\
              (err = None -> e = FrameLevel.failed_to_send).
Proof.
  command_cases.
  all: at_position.
  all: try short_read_absurd.
  all: try (split; [done|]; eexists; split; [done|]; done).

Qed.

(** The marker arrives, then only 2 of the 17 bytes asked for: the buffer
    ends in zeros and the acknowledgement is refused. *)
Example short_ack_refused :
  FrameLevel.sendCommand [] (stream [xfd; xfc; xfb]) =
  (Return, Chunked [[]] [enter_config] None,
   [Call (CWrite enter_config None);
    Call (CRead 1 [xfd] None); Call (CRead 17 [xfc; xfb] None);
    Send (SendError FrameLevel.failed_to_send)]).
Proof. reflexivity. Qed.

(** ** What [read] asks of the port *)

Lemma frameLength_range (b1 b0 : byte) : 0 <= frameLength_of b1 b0 <= 65535.
Proof.
  pose proof (int_range b0). pose proof (int_range b1).
  unfold frameLength_of. rewrite lor_shiftl_8 by lia. lia.
Qed.

(** A request of [read] is within bounds: the sizes are constants, or a
    length field that was tested against 0. *)
Ltac passive_call :=
  cbn;
  try match goal with
      | E : (frameLength_of ?b1 ?b0 =? 0) = false |- _ =>
          apply Z.eqb_neq in E; pose proof (frameLength_range b1 b0)
      end;
  first [done | lia].

Lemma passive_per_target_body {P} `{Port P} :
  always (passive true) (PerTarget.read_body (P:=P)).
Proof.
  assert (Hloop : forall n buf, always (passive true) (PerTarget.targets_loop (P:=P) n buf)).
  { intros n buf p. rewrite per_target_loop. cbn [snd].
    by apply Forall_fmap, Forall_true. }
  unfold PerTarget.read_body. always_steps passive_call.
Qed.

Lemma passive_frame_level_body {P} `{Port P} :
  always (passive false) (FrameLevel.read_body (P:=P)).
Proof.
  assert (Hloop : forall n buf, always (passive false) (FrameLevel.targets_loop (P:=P) n buf)).
  { intros n buf p. rewrite frame_level_loop. cbn [snd].
    by apply Forall_fmap, Forall_true. }
  unfold FrameLevel.read_body, FrameLevel.decode_payload. always_steps passive_call.
Qed.

(** X12: [read] only listens.  On any port, it never writes; every read
    it asks for is of at least 1 and at most 65535 bytes (1, 3, 2 or 4
    bytes, or as many as the length field says when that is not 0), so no
    buffer it makes is larger than that; [src/LD2451.go] also flushes, and
    [src/unnamed/part_000] does not. *)
Theorem read_only_listens {P : Type} `{Port P} (fuel : nat) (p : P) :
  Forall (passive true) (PerTarget.read fuel p).2 /\
  Forall (passive false) (FrameLevel.read fuel p).2.
Proof.
  split.
  - apply (always_forever (passive true)), passive_per_target_body.
  - apply (always_forever (passive false)), passive_frame_level_body.
Qed.

(** ** The errors the consumer gets *)

Lemma reader_step_suffix {T} (l l' : LD2451 T) :
  reader_step l l' -> reader l' `suffix_of` reader l.
Proof. intros [c q t todo r Hroom]. cbn. by apply suffix_cons_r. Qed.

Lemma ReadTarget_suffix {T} (zero : T) (l l' : LD2451 T) res :
  ReadTarget zero l res l' -> reader l' `suffix_of` reader l.
Proof.
  induction 1 as [c t q todo r|c t todo r|c q e todo r|l l' res l'' Hstep Hcall IH]; cbn.
  - done.
  - by apply suffix_cons_r.
  - by apply suffix_cons_r.
  - etrans; [exact IH | by apply reader_step_suffix].
Qed.

Lemma ReadTarget_error_sent {T} (zero : T) (l l' : LD2451 T) t e :
  ReadTarget zero l (t, Some e) l' -> t = zero /\ SendError e ∈ reader l.
Proof.
  intros Hcall. remember (t, Some e) as res eqn:Eres.
  induction Hcall as [c t' q todo r|c t' todo r|c q e' todo r|l l' res l'' Hstep Hcall IH];
    try done.
  - simplify_eq. split; [done|]. cbn. set_solver.
  - destruct (IH Eres) as [Ez Hin]. split; [exact Ez|].
    destruct (reader_step_suffix _ _ Hstep) as [pre Epre].
    rewrite Epre. apply elem_of_app. by right.
Qed.

Lemma ReadTargets_error_sent {T} (zero : T) (l l' : LD2451 T) ress t e :
  ReadTargets zero l ress l' -> (t, Some e) ∈ ress ->
  t = zero /\ SendError e ∈ reader l.
Proof.
  induction 1 as [l|l res l' ress l'' Hcall Hcalls IH]; intros Hin; [set_solver|].
  apply elem_of_cons in Hin as [<-|Hin].
  - by eapply ReadTarget_error_sent.
  - destruct (IH Hin) as [Ez Hr]. split; [exact Ez|].
    destruct (ReadTarget_suffix _ _ _ _ Hcall) as [pre Epre].
    rewrite Epre. apply elem_of_app. by right.
Qed.

Lemma sent_error_was_read {T} (r : ending) (tr : list (action T)) (e : error) :
  match r with Returned => failed tr | _ => Forall quiet tr end ->
  SendError e ∈ sends tr ->
  r = Returned /\ exists n got, Call (CRead n got (Some e)) ∈ tr.
Proof.
  intros Hr Hin.
  assert (Hq : ~ Forall quiet tr) by (intros Hq; by apply (sends_quiet tr e Hq)).
  destruct r; try done. split; [done|].
  destruct Hr as (pre & n & got & e' & -> & Hpre).
  rewrite sends_app in Hin. apply elem_of_app in Hin as [Hin|Hin].
  - by apply sends_quiet in Hin.
  - cbn in Hin. apply list_elem_of_singleton in Hin as [= ->].
    exists n, got. set_solver.
Qed.

(** X13: every error a call of [ReadTarget] returns after [Open] is an
    error [port.Read] reported to [read], which has returned since; it
    comes with the zero [Target]. *)
Theorem returned_errors_are_read_errors {P : Type} `{Port P} (cfg : Config) (fuel : nat)
    (p : P) (ress : list (PerTarget.Target * option error))
    (l' : LD2451 PerTarget.Target) (t : PerTarget.Target) (e : error) :
  ReadTargets PerTarget.zero (Open cfg fuel p) ress l' ->
  (t, Some e) ∈ ress ->
  t = PerTarget.zero /\
  (PerTarget.read fuel p).1.1 = Returned /\
  exists n got, Call (CRead n got (Some e)) ∈ (PerTarget.read fuel p).2.
Proof.
  intros Hcalls Hin.
  destruct (ReadTargets_error_sent _ _ _ _ _ _ Hcalls Hin) as [-> Hsent].
  split; [done|].
  pose proof (ok_forever PerTarget.read_body fuel p ok_per_target_body) as Hr.
  unfold Open in Hsent. unfold PerTarget.read in *.
  destruct (forever _ _ _) as [[r q] tr]. cbn in *.
  by eapply sent_error_was_read.
Qed.

Lemma returned_errors_are_read_errors_witness :
  (PerTarget.zero, Some EOF) ∈
    [(PerTarget.mkTarget false 16 10 1 20 30, None); (PerTarget.zero, Some EOF)] /\
  (PerTarget.read 2 (stream scenario)).1.1 = Returned /\
  exists n got, Call (CRead n got (Some EOF)) ∈ (PerTarget.read 2 (stream scenario)).2.
Proof.
  assert (Hcalls : ReadTargets PerTarget.zero (Open some_config 2 (stream scenario))
            [(PerTarget.mkTarget false 16 10 1 20 30, None); (PerTarget.zero, Some EOF)]
            (mkLD2451 some_config [] [] Returned)).
  { change (Open some_config 2 (stream scenario))
      with (mkLD2451 some_config []
              [SendTarget (PerTarget.mkTarget false 16 10 1 20 30); SendError EOF] Returned).
    eapply ReadTargets_call; [apply ReadTarget_handed|].
    eapply ReadTargets_call; [apply ReadTarget_error|].
    apply ReadTargets_none. }
  assert (Hin : (PerTarget.zero, Some EOF) ∈
            [(PerTarget.mkTarget false 16 10 1 20 30, None); (PerTarget.zero, Some EOF)]).
  { set_solver. }
  split; [exact Hin|].
  exact (proj2 (returned_errors_are_read_errors some_config 2 (stream scenario)
                  _ _ _ _ Hcalls Hin)).
Defined.

(** ** The alarm byte of the frame in [src/unnamed/part_000] *)

(** X14: [src/unnamed/part_000] never looks at the second byte of a
    payload, the alarm state of the frame: with any value there, decoding
    the payload ends the same way, leaves the port the same and sends the
    same targets, on any port. *)
Theorem frame_alarm_unread {P : Type} `{Port P} (v : byte) (payload : list byte) (p : P) :
  FrameLevel.decode_payload (<[1%nat := v]> payload) p = FrameLevel.decode_payload payload p.
Proof.
  unfold FrameLevel.decode_payload.
  destruct payload as [|nt [|alarm recs]]; reflexivity.
Qed.
